(** * hawiah-postgres: the PostgreSQL driver, embedded and verified

    The development follows [src/drivers/PostgreSQLDriver.ts] (the hybrid
    driver) and the earlier schema-less driver shipped next to the README.

    Layout:
    - [JS]: the JavaScript values and built-ins the driver relies on;
    - [Pg]: the table behind [this.tableName], as the statements the driver
      issues see it;
    - [PostgreSQLDriver]: the driver's methods, one definition per method;
    - [SchemaLess]: the [update] of the earlier schema-less driver;
    - [Spec], [Props]: the vocabulary of the statements;
    - the theorems.

    Conventions of the model.
    - A JS object used as a dictionary is the [gmap string value] of its own
      enumerable properties; property order is not represented.  Schema
      definitions are object literals: [key in definition] and
      [obj[key] = v] take the names of [Object.prototype] into account
      ([has_property], [set_property]), and so does a property read
      [record[key]] ([get_prop]).
    - Numbers are exact decimals [mant * 10 ^ expo]; the rounding of IEEE
      doubles, NaN and the infinities are outside the model.
    - Strings are byte strings; case mapping is the ASCII one.
    - An [async] method is a state transformer on the [world] (table, log of
      issued statements, clock and random source) that either returns or
      throws. *)

From Stdlib Require Import ZArith Ascii String DecimalString DecimalFacts
  DecimalPos DecimalZ.
From stdpp Require Import gmap strings list fin_maps.

Open Scope string_scope.
Open Scope Z_scope.

(** ** JavaScript values and built-ins *)

Module JS.

Record number := Num { mant : Z; expo : Z }.

#[warnings="-register-all"] Inductive value :=
| VUndef
| VNull
| VBool (b : bool)
| VNum (n : number)
| VStr (s : string)
| VDate (ms : Z)
| VArr (l : list value)
| VObj (m : gmap string value).

(** What a method does: it returns, or it throws. *)
Inductive error :=
| NotConnected   (* Error('Database not connected. Call connect() first.') *)
| TypeError      (* property read on null or undefined *)
| SyntaxError    (* JSON.parse *)
| SqlError (msg : string).

Inductive result (A : Type) :=
| Ok (a : A)
| Throw (e : error).
Arguments Ok {A} a.
Arguments Throw {A} e.

Definition rbind {A B} (r : result A) (k : A -> result B) : result B :=
  match r with Ok a => k a | Throw e => Throw e end.

Definition int (z : Z) : value := VNum (Num z 0).

(** [10 ^ k] for the comparison of two decimals. *)
Definition pow10 (k : Z) : Z := 10 ^ k.

Definition num_eqb (a b : number) : bool :=
  if expo a <=? expo b
  then mant a =? mant b * pow10 (expo b - expo a)
  else mant a * pow10 (expo a - expo b) =? mant b.

(** [a === b]: primitives by value, objects by identity.  Every object the
    driver compares was freshly built by [pg] for a row and the other side
    comes from the caller, so two objects are never the same one. *)
Definition strict_eq (a b : value) : bool :=
  match a, b with
  | VUndef, VUndef => true
  | VNull, VNull => true
  | VBool x, VBool y => Bool.eqb x y
  | VNum x, VNum y => num_eqb x y
  | VStr x, VStr y => String.eqb x y
  | _, _ => false
  end.

(** ToBoolean. *)
Definition truthy (v : value) : bool :=
  match v with
  | VUndef | VNull => false
  | VBool b => b
  | VNum n => negb (mant n =? 0)
  | VStr s => negb (String.eqb s EmptyString)
  | VDate _ | VArr _ | VObj _ => true
  end.

Definition typeof (v : value) : string :=
  match v with
  | VUndef => "undefined"
  | VNull | VDate _ | VArr _ | VObj _ => "object"
  | VBool _ => "boolean"
  | VNum _ => "number"
  | VStr _ => "string"
  end.

(** *** Strings *)

Definition upper_ascii (c : ascii) : ascii :=
  let n := N_of_ascii c in
  if ((97 <=? n)%N && (n <=? 122)%N) then ascii_of_N (n - 32) else c.

Fixpoint toUpperCase (s : string) : string :=
  match s with
  | EmptyString => EmptyString
  | String c s' => String (upper_ascii c) (toUpperCase s')
  end.

Fixpoint startsWith (s sub : string) : bool :=
  match sub, s with
  | EmptyString, _ => true
  | String _ _, EmptyString => false
  | String a sub', String b s' => Ascii.eqb a b && startsWith s' sub'
  end.

(** [s.includes(sub)] *)
Fixpoint includes (s sub : string) : bool :=
  startsWith s sub ||
  match s with
  | EmptyString => false
  | String _ s' => includes s' sub
  end.

Fixpoint string_drop (n : nat) (s : string) : string :=
  match n, s with
  | S n', String _ s' => string_drop n' s'
  | _, _ => s
  end.

Fixpoint string_take (n : nat) (s : string) : string :=
  match n, s with
  | S n', String c s' => String c (string_take n' s')
  | _, _ => EmptyString
  end.

(** [s.substring(from, to)] for [from <= to]. *)
Definition substring (from to : nat) (s : string) : string :=
  string_take (to - from) (string_drop from s).

Fixpoint repeat0 (n : nat) : string :=
  match n with O => EmptyString | S n' => String "0" (repeat0 n') end.

(** Decimal text of an integer, and left padding with zeros. *)
Definition Z_text (z : Z) : string := NilZero.string_of_int (Z.to_int z).

Definition pad (width : nat) (z : Z) : string :=
  let s := Z_text z in repeat0 (width - String.length s) ++ s.

(** *** Numbers as text: Number::toString(x, 10) *)

Fixpoint strip0 (rev_digits : list ascii) : list ascii * nat :=
  match rev_digits with
  | c :: r => if Ascii.eqb c "0" then let '(d, k) := strip0 r in (d, S k)
              else (rev_digits, O)
  | [] => ([], O)
  end.

Definition Number_toString (x : number) : string :=
  if mant x =? 0 then "0" else
  let '(rd, z) := strip0 (rev (list_ascii_of_string (Z_text (Z.abs (mant x))))) in
  let s := string_of_list_ascii (rev rd) in
  let k := Z.of_nat (String.length s) in
  let n := k + Z.of_nat z + expo x in
  let sign := if mant x <? 0 then "-" else EmptyString in
  let body :=
    if (k <=? n) && (n <=? 21) then s ++ repeat0 (Z.to_nat (n - k))
    else if (0 <? n) && (n <=? 21) then
      string_take (Z.to_nat n) s ++ "." ++ string_drop (Z.to_nat n) s
    else if (-6 <? n) && (n <=? 0) then "0." ++ repeat0 (Z.to_nat (- n)) ++ s
    else
      let e := (if 0 <=? n - 1 then "e+" else "e-") ++ Z_text (Z.abs (n - 1)) in
      if k =? 1 then s ++ e
      else string_take 1 s ++ "." ++ string_drop 1 s ++ e in
  sign ++ body.

(** *** Dates: Date.prototype.toISOString on a time value in milliseconds *)

Definition civil_from_days (days : Z) : Z * Z * Z :=
  let z := days + 719468 in
  let era := z / 146097 in
  let doe := z - era * 146097 in
  let yoe := (doe - doe / 1460 + doe / 36524 - doe / 146096) / 365 in
  let doy := doe - (365 * yoe + yoe / 4 - yoe / 100) in
  let mp := (5 * doy + 2) / 153 in
  let d := doy - (153 * mp + 2) / 5 + 1 in
  let m := if mp <? 10 then mp + 3 else mp - 9 in
  let y := yoe + era * 400 + (if m <=? 2 then 1 else 0) in
  (y, m, d).

Definition toISOString (ms : Z) : string :=
  let '(y, m, d) := civil_from_days (ms / 86400000) in
  let t := ms mod 86400000 in
  let year := if (0 <=? y) && (y <=? 9999) then pad 4 y
              else (if y <? 0 then "-" else "+") ++ pad 6 (Z.abs y) in
  year ++ "-" ++ pad 2 m ++ "-" ++ pad 2 d ++ "T"
    ++ pad 2 (t / 3600000) ++ ":" ++ pad 2 (t / 60000 mod 60) ++ ":"
    ++ pad 2 (t / 1000 mod 60) ++ "." ++ pad 3 (t mod 1000) ++ "Z".

(** *** Objects *)

Abbreviation object := (gmap string value).

Fixpoint indexed {A} (f : A -> value) (i : nat) (l : list A) : object :=
  match l with
  | [] => ∅
  | x :: l' => <[Z_text (Z.of_nat i) := f x]> (indexed f (S i) l')
  end.

Definition char_value (c : ascii) : value := VStr (String c EmptyString).

(** The own enumerable properties that [{...v}] copies. *)
Definition own_props (v : value) : object :=
  match v with
  | VObj m => m
  | VArr l => indexed id 0 l
  | VStr s => indexed char_value 0 (list_ascii_of_string s)
  | _ => ∅
  end.

(** [{...a, ...b}]: the properties of [b] are copied last. *)
Definition spread2 (a b : object) : object := b ∪ a.

(** The names an object literal inherits from [Object.prototype]. *)
Definition Object_prototype : list string :=
  ["constructor"; "__defineGetter__"; "__defineSetter__"; "hasOwnProperty";
   "__lookupGetter__"; "__lookupSetter__"; "isPrototypeOf";
   "propertyIsEnumerable"; "toString"; "valueOf"; "__proto__"; "toLocaleString"].

(** [key in obj] for an object literal with the own properties [own]: the
    test follows the prototype chain. *)
Definition has_property {A} (own : gmap string A) (key : string) : bool :=
  bool_decide (is_Some (own !! key)) || bool_decide (key ∈ Object_prototype).

(** [obj[key] = v] on an object literal.  [__proto__] is an accessor of
    [Object.prototype]: assigning to it runs the setter and creates no own
    property.  The other inherited names are writable data properties, and
    the assignment creates an own property as for any other key. *)
Definition set_property (obj : object) (key : string) (v : value) : object :=
  if String.eqb key "__proto__" then obj else <[key := v]> obj.

(** What a read finds under a key that is no own property.  Every value
    but [null] and [undefined] inherits the members of [Object.prototype]:
    functions and, under [__proto__], the prototype itself.  The driver only
    compares what it reads with [!==], so one object, identical to no value
    a caller holds, stands for each of them.  Any other key reads
    [undefined]; the further members of the prototypes of arrays, strings,
    numbers, booleans and dates are not represented. *)
Definition inherited (k : string) : value :=
  if bool_decide (k ∈ Object_prototype) then VObj ∅ else VUndef.

(** [v[k]]: an own property, [length] of strings and arrays, or what the
    prototype chain gives. *)
Definition get_prop (v : value) (k : string) : result value :=
  match v with
  | VUndef | VNull => Throw TypeError
  | VObj m => Ok (default (inherited k) (m !! k))
  | VArr l =>
      if String.eqb k "length" then Ok (int (Z.of_nat (List.length l)))
      else Ok (default (inherited k) (own_props v !! k))
  | VStr s =>
      if String.eqb k "length" then Ok (int (Z.of_nat (String.length s)))
      else Ok (default (inherited k) (own_props v !! k))
  | _ => Ok (inherited k)
  end.

(** *** JSON *)

(** The JSON document [JSON.stringify(v)] denotes, [None] when the result
    is [undefined]: members holding [undefined] are dropped, [undefined]
    array slots become [null], dates become their ISO text. *)
Fixpoint to_json (v : value) : option value :=
  match v with
  | VUndef => None
  | VDate ms => Some (VStr (toISOString ms))
  | VArr l => Some (VArr (map (fun x => default VNull (to_json x)) l))
  | VObj m => Some (VObj (omap to_json m))
  | _ => Some v
  end.

Definition is_ws (c : ascii) : bool :=
  let n := N_of_ascii c in
  ((n =? 32) || (n =? 9) || (n =? 10) || (n =? 13))%N.

Definition is_digit (c : ascii) : bool :=
  let n := N_of_ascii c in ((48 <=? n)%N && (n <=? 57)%N).

Fixpoint skip_ws (s : string) : string :=
  match s with
  | String c s' => if is_ws c then skip_ws s' else s
  | EmptyString => s
  end.

Fixpoint span_digits (s : string) : string * string :=
  match s with
  | String c s' =>
      if is_digit c then let '(d, r) := span_digits s' in (String c d, r)
      else (EmptyString, s)
  | EmptyString => (EmptyString, s)
  end.

Fixpoint digits_val (acc : Z) (d : string) : Z :=
  match d with
  | String c d' => digits_val (acc * 10 + (Z.of_N (N_of_ascii c) - 48)) d'
  | EmptyString => acc
  end.

Definition hex_val (c : ascii) : option Z :=
  let n := Z.of_N (N_of_ascii c) in
  if (48 <=? n) && (n <=? 57) then Some (n - 48)
  else if (65 <=? n) && (n <=? 70) then Some (n - 55)
  else if (97 <=? n) && (n <=? 102) then Some (n - 87)
  else None.

Definition byte (z : Z) : ascii := ascii_of_N (Z.to_N z).

(** The UTF-8 bytes of a [\uXXXX] code unit. *)
Definition utf8 (n : Z) : string :=
  if n <? 128 then String (byte n) EmptyString
  else if n <? 2048 then
    String (byte (192 + n / 64)) (String (byte (128 + n mod 64)) EmptyString)
  else
    String (byte (224 + n / 4096))
      (String (byte (128 + n / 64 mod 64))
         (String (byte (128 + n mod 64)) EmptyString)).

Definition unescape (c : ascii) : option ascii :=
  let n := N_of_ascii c in
  if (n =? 34)%N || (n =? 92)%N || (n =? 47)%N then Some c
  else if (n =? 98)%N then Some (ascii_of_N 8)
  else if (n =? 102)%N then Some (ascii_of_N 12)
  else if (n =? 110)%N then Some (ascii_of_N 10)
  else if (n =? 114)%N then Some (ascii_of_N 13)
  else if (n =? 116)%N then Some (ascii_of_N 9)
  else None.

(** The characters of a string literal, after its opening quote. *)
Fixpoint parse_chars (s : string) : option (string * string) :=
  match s with
  | EmptyString => None
  | String c s' =>
      if (N_of_ascii c =? 34)%N then Some (EmptyString, s')
      else if (N_of_ascii c =? 92)%N then
        match s' with
        | String e s2 =>
            match unescape e with
            | Some ch =>
                match parse_chars s2 with
                | Some (str, r) => Some (String ch str, r)
                | None => None
                end
            | None =>
                match s2 with
                | String h1 (String h2 (String h3 (String h4 s3))) =>
                    match hex_val h1, hex_val h2, hex_val h3, hex_val h4 with
                    | Some a, Some b, Some c4, Some d =>
                        if (N_of_ascii e =? 117)%N then
                          match parse_chars s3 with
                          | Some (str, r) =>
                              Some (utf8 (((a * 16 + b) * 16 + c4) * 16 + d)
                                      ++ str, r)
                          | None => None
                          end
                        else None
                    | _, _, _, _ => None
                    end
                | _ => None
                end
            end
        | EmptyString => None
        end
      else if (N_of_ascii c <? 32)%N then None
      else
        match parse_chars s' with
        | Some (str, r) => Some (String c str, r)
        | None => None
        end
  end.

(** A number token: [-]? int frac? exp?. *)
Definition parse_number (s : string) : option (number * string) :=
  let '(neg, s1) := match s with
                    | String c r => if Ascii.eqb c "-" then (true, r) else (false, s)
                    | EmptyString => (false, s)
                    end in
  let '(ip, s2) := match s1 with
                   | String c r => if Ascii.eqb c "0" then ("0", r) else span_digits s1
                   | EmptyString => (EmptyString, s1)
                   end in
  if String.eqb ip EmptyString then None else
  let frac := match s2 with
              | String c r =>
                  if Ascii.eqb c "." then
                    let '(fp, s3) := span_digits r in
                    if String.eqb fp EmptyString then None else Some (fp, s3)
                  else Some (EmptyString, s2)
              | EmptyString => Some (EmptyString, s2)
              end in
  match frac with
  | None => None
  | Some (fp, s3) =>
      let m := digits_val 0 (ip ++ fp) in
      let m := if neg then - m else m in
      let k := Z.of_nat (String.length fp) in
      match s3 with
      | String c r =>
          if Ascii.eqb c "e" || Ascii.eqb c "E" then
            let '(eneg, r1) := match r with
                               | String g r' =>
                                   if Ascii.eqb g "-" then (true, r')
                                   else if Ascii.eqb g "+" then (false, r')
                                   else (false, r)
                               | EmptyString => (false, r)
                               end in
            let '(ep, s4) := span_digits r1 in
            if String.eqb ep EmptyString then None
            else
              let e := digits_val 0 ep in
              Some (Num m ((if eneg then - e else e) - k), s4)
          else Some (Num m (- k), s3)
      | EmptyString => Some (Num m (- k), s3)
      end
  end.

Fixpoint parse_value (fuel : nat) (s : string) : option (value * string) :=
  match fuel with
  | O => None
  | S fuel =>
      let s := skip_ws s in
      if startsWith s "null" then Some (VNull, string_drop 4 s)
      else if startsWith s "true" then Some (VBool true, string_drop 4 s)
      else if startsWith s "false" then Some (VBool false, string_drop 5 s)
      else
        match s with
        | EmptyString => None
        | String c s' =>
            if (N_of_ascii c =? 34)%N then
              match parse_chars s' with
              | Some (str, r) => Some (VStr str, r)
              | None => None
              end
            else if Ascii.eqb c "[" then
              match skip_ws s' with
              | String c2 r =>
                  if Ascii.eqb c2 "]" then Some (VArr [], r)
                  else parse_elements fuel s' []
              | EmptyString => None
              end
            else if Ascii.eqb c "{" then
              match skip_ws s' with
              | String c2 r =>
                  if Ascii.eqb c2 "}" then Some (VObj ∅, r)
                  else parse_members fuel s' ∅
              | EmptyString => None
              end
            else
              match parse_number s with
              | Some (n, r) => Some (VNum n, r)
              | None => None
              end
        end
  end
with parse_elements (fuel : nat) (s : string) (acc : list value)
  : option (value * string) :=
  match fuel with
  | O => None
  | S fuel =>
      match parse_value fuel s with
      | Some (v, r) =>
          match skip_ws r with
          | String c r' =>
              if Ascii.eqb c "," then parse_elements fuel r' (v :: acc)
              else if Ascii.eqb c "]" then Some (VArr (rev (v :: acc)), r')
              else None
          | EmptyString => None
          end
      | None => None
      end
  end
with parse_members (fuel : nat) (s : string) (acc : object)
  : option (value * string) :=
  match fuel with
  | O => None
  | S fuel =>
      match skip_ws s with
      | String q s' =>
          if (N_of_ascii q =? 34)%N then
            match parse_chars s' with
            | Some (key, r) =>
                match skip_ws r with
                | String c r' =>
                    if Ascii.eqb c ":" then
                      match parse_value fuel r' with
                      | Some (v, r2) =>
                          match skip_ws r2 with
                          | String c2 r3 =>
                              if Ascii.eqb c2 ","
                              then parse_members fuel r3 (<[key := v]> acc)
                              else if Ascii.eqb c2 "}"
                              then Some (VObj (<[key := v]> acc), r3)
                              else None
                          | EmptyString => None
                          end
                      | None => None
                      end
                    else None
                | EmptyString => None
                end
            | None => None
            end
          else None
      | EmptyString => None
      end
  end.

(** [JSON.parse(text)]: the value, or a SyntaxError.  The fuel is twice
    the length of the text: every call on the way to a value has consumed
    a character of its own. *)
Definition JSON_parse (text : string) : result value :=
  match parse_value (2 * String.length text + 2) text with
  | Some (v, r) =>
      if String.eqb (skip_ws r) EmptyString then Ok v else Throw SyntaxError
  | None => Throw SyntaxError
  end.

End JS.
Export JS.

(** ** The table behind [this.tableName]

    What the statements of the driver do to one PostgreSQL table.  A cell
    gives back the value it was given: column types are not enforced, a
    TIMESTAMP cell gives back the [Date] it received and a JSONB cell the JSON
    document its text denoted.  NOT NULL is not checked (the driver never
    sends a null for such a column).

    The list of rows is the order in which a scan without ORDER BY returns
    them: a row inserted comes last, and so does a row updated, of which
    UPDATE writes a new version.  PostgreSQL promises no such order, and
    what is proved of [update] does not rest on it.

    A column is named as the driver writes it.  PostgreSQL folds an unquoted
    identifier to lower case, so the column written [_createdAt] is
    [_createdat] in the database and in the rows [SELECT *] returns; the
    folding is not represented. *)

Module Pg.

Abbreviation row := (gmap string value).

Record column := Column { cname : string; ctype : string; cdefault : value }.

Record table := Table { columns : list column; rows : list row }.

(** A statement parameter: a JS value handed to [pg] as it is, or the text
    [JSON.stringify(v)], identified with the document it denotes. *)
Inductive param :=
| PVal (v : value)
| PJson (v : value).

Inductive stmt :=
| CreateTable (cols : list column)      (* CREATE TABLE IF NOT EXISTS t (...) *)
| Malformed                             (* a text PostgreSQL cannot parse *)
| CreateIndex (name col : string)       (* CREATE INDEX IF NOT EXISTS name ON t(col) *)
| InsertInto (cols : list string) (vals : list param)
| SelectAll                             (* SELECT * FROM t *)
| SelectData                            (* SELECT _data FROM t *)
| SelectAllById (id : value)            (* SELECT * FROM t WHERE _id = $1 LIMIT 1 *)
| SelectDataById (id : value)           (* SELECT _data FROM t WHERE _id = $1 LIMIT 1 *)
| UpdateSet (sets : list (string * param)) (id : value)
                                        (* UPDATE t SET c = $i, ... WHERE _id = $n *)
| DeleteById (id : value)               (* DELETE FROM t WHERE _id = $1 *)
| DeleteAll                             (* DELETE FROM t *)
| SelectCount.                          (* SELECT COUNT( * ) as count FROM t *)

(** The cell a parameter leaves in a column ([undefined] is sent as NULL). *)
Definition cell (p : param) : value :=
  match p with
  | PVal VUndef => VNull
  | PVal v => v
  | PJson v => default VNull (to_json v)
  end.

(** The text [pg] sends for a parameter compared with the VARCHAR [_id];
    [None] is NULL, which equals nothing.  Dates, arrays and objects have a
    text form too, which is not modelled: they are taken to match no id. *)
Definition param_text (v : value) : option string :=
  match v with
  | VStr s => Some s
  | VNum n => Some (Number_toString n)
  | VBool b => Some (if b then "true" else "false")
  | _ => None
  end.

(** [_id = $1] on a row. *)
Definition id_matches (id : value) (r : row) : bool :=
  match r !! "_id", param_text id with
  | Some (VStr s), Some t => String.eqb s t
  | _, _ => false
  end.

Definition has_column (t : table) (c : string) : bool :=
  bool_decide (c ∈ cname <$> columns t).

Definition new_row (t : table) (assigned : row) : row :=
  list_to_map
    ((fun c => (cname c, default (cdefault c) (assigned !! cname c))) <$> columns t).

Definition assign (sets : list (string * param)) (r : row) : row :=
  foldr (fun '(c, p) r' => <[c := cell p]> r') r sets.

Definition no_table : error := SqlError "relation does not exist".
Definition no_column : error := SqlError "column does not exist".
Definition twice : error := SqlError "column specified more than once".
Definition duplicate_key : error := SqlError "duplicate key value violates unique constraint".

Definition exec_on (s : stmt) (t : table) : result (list row * table) :=
  match s with
  | CreateTable _ => Ok ([], t)
  | Malformed => Throw (SqlError "syntax error")
  | CreateIndex _ col =>
      if has_column t col then Ok ([], t) else Throw no_column
  | InsertInto cols vals =>
      if negb (forallb (has_column t) cols) then Throw no_column
      else if negb (bool_decide (NoDup cols)) then Throw twice
      else if negb (List.length cols =? List.length vals)%nat
      then Throw (SqlError "INSERT has more target columns than expressions")
      else
        let r := new_row t (list_to_map (zip cols (cell <$> vals))) in
        if existsb (id_matches (default VNull (r !! "_id"))) (rows t)
        then Throw duplicate_key
        else Ok ([], Table (columns t) (rows t ++ [r]))
  | SelectAll => Ok (rows t, t)
  | SelectData =>
      if has_column t "_data"
      then Ok ((fun r => {[ "_data" := default VNull (r !! "_data") ]}) <$> rows t, t)
      else Throw no_column
  | SelectAllById id =>
      if has_column t "_id"
      then Ok (take 1 (List.filter (id_matches id) (rows t)), t)
      else Throw no_column
  | SelectDataById id =>
      if has_column t "_id" && has_column t "_data"
      then Ok ((fun r => {[ "_data" := default VNull (r !! "_data") ]})
                 <$> take 1 (List.filter (id_matches id) (rows t)), t)
      else Throw no_column
  | UpdateSet sets id =>
      if negb (forallb (has_column t) (sets.*1) && has_column t "_id")
      then Throw no_column
      else if negb (bool_decide (NoDup (sets.*1)))
      then Throw (SqlError "multiple assignments to same column")
      else Ok ([], Table (columns t)
                     (List.filter (fun r => negb (id_matches id r)) (rows t)
                        ++ (assign sets <$> List.filter (id_matches id) (rows t))))
  | DeleteById id =>
      if has_column t "_id"
      then Ok ([], Table (columns t)
                     (List.filter (fun r => negb (id_matches id r)) (rows t)))
      else Throw no_column
  | DeleteAll => Ok ([], Table (columns t) [])
  | SelectCount =>
      Ok ([ {[ "count" := VStr (Z_text (Z.of_nat (List.length (rows t)))) ]} ], t)
  end.

(** A statement on the database: the table may not exist yet. *)
Definition exec (s : stmt) (db : option table) : result (list row * option table) :=
  match db, s with
  | None, CreateTable cols =>
      if bool_decide (NoDup (cname <$> cols))
      then Ok ([], Some (Table cols []))
      else Throw twice
  | None, Malformed => Throw (SqlError "syntax error")
  | None, _ => Throw no_table
  | Some t, _ =>
      match exec_on s t with
      | Ok (rs, t') => Ok (rs, Some t')
      | Throw e => Throw e
      end
  end.

End Pg.
Export Pg.

(** ** The driver *)

Module PostgreSQLDriver.

(** A declared type in a schema definition: a tag, or an object carrying
    the tag in its [type] property ([None]: no such property). *)
Inductive type_decl :=
| TagString (t : string)
| TagObject (type : option string).

Abbreviation definition := (gmap string type_decl).

(** [this.schema]: an object with a [getDefinition()] method, or the
    definition itself. *)
Inductive schema_t :=
| WithGetDefinition (d : definition)
| Plain (d : definition).

Inductive db_type := sql | nosql.

(** The [Pool] object; the table it reaches is in the [world]. *)
Inductive Pool := mkPool.

Record driver := Driver {
  pool : option Pool;
  tableName : string;
  schema : option schema_t;
  dbType : db_type }.

(** The state the methods run in: the driver object, the table, the
    statements sent so far, and the readings the clock and [Math.random]
    will give ([random36 k] is the base-36 text of the [k]-th draw). *)
Record world := World {
  this : driver;
  db : option table;
  log : list stmt;
  clock : nat -> Z;
  ticks : nat;
  random36 : nat -> string;
  draws : nat }.

Definition M (A : Type) : Type := world -> result A * world.

Definition ret {A} (a : A) : M A := fun w => (Ok a, w).

Definition bind {A B} (m : M A) (k : A -> M B) : M B :=
  fun w => match m w with
           | (Ok a, w') => k a w'
           | (Throw e, w') => (Throw e, w')
           end.

Definition throw {A} (e : error) : M A := fun w => (Throw e, w).

Definition lift {A} (r : result A) : M A := fun w => (r, w).

Notation "x <- m ;; k" := (bind m (fun x => k))
  (at level 100, m at next level, right associativity).
Notation "m ;;; k" := (bind m (fun _ => k))
  (at level 100, right associativity).

Definition get_this : M driver := fun w => (Ok (this w), w).

Definition set_this (d : driver) : M unit := fun w =>
  (Ok tt, World d (db w) (log w) (clock w) (ticks w) (random36 w) (draws w)).

(** [new Date()] and [Date.now()]: the next reading of the clock. *)
Definition Date_now : M Z := fun w =>
  (Ok (clock w (ticks w)),
   World (this w) (db w) (log w) (clock w) (S (ticks w)) (random36 w) (draws w)).

(** [Math.random().toString(36)] *)
Definition Math_random_toString36 : M string := fun w =>
  (Ok (random36 w (draws w)),
   World (this w) (db w) (log w) (clock w) (ticks w) (random36 w) (S (draws w))).

(** [await this.pool!.query(sql, params)] *)
Definition pool_query (s : stmt) : M (list row) := fun w =>
  let w' db' := World (this w) db' (log w ++ [s]) (clock w) (ticks w)
                  (random36 w) (draws w) in
  match exec s (db w) with
  | Ok (rs, db') => (Ok rs, w' db')
  | Throw e => (Throw e, w' (db w))
  end.

Fixpoint mapM {A B} (f : A -> result B) (l : list A) : result (list B) :=
  match l with
  | [] => Ok []
  | x :: l' => rbind (f x) (fun y => rbind (mapM f l') (fun ys => Ok (y :: ys)))
  end.

Fixpoint filterM {A} (f : A -> result bool) (l : list A) : result (list A) :=
  match l with
  | [] => Ok []
  | x :: l' =>
      rbind (f x) (fun b =>
      rbind (filterM f l') (fun ys => Ok (if b then x :: ys else ys)))
  end.

Definition getDefinition (s : schema_t) : definition :=
  match s with WithGetDefinition d => d | Plain d => d end.

(** [this.schema && this.dbType === 'sql'] *)
Definition hybrid (th : driver) : bool :=
  match schema th, dbType th with
  | Some _, sql => true
  | _, _ => false
  end.

(** [new PostgreSQLDriver(options)]; the pool configuration the constructor
    assembles plays no part in the methods below and is left out. *)
Definition new_driver (tableName : string) : driver :=
  Driver None tableName None nosql.

Definition setSchema (s : option schema_t) : M unit :=
  th <- get_this;;
  set_this (Driver (pool th) (tableName th) s sql).

(** [String(t)] for the two shapes above. *)
Definition tag_text (type : type_decl) : string :=
  match type with
  | TagString t => t
  | TagObject (Some ty) => if truthy (VStr ty) then ty else "[object Object]"
  | TagObject None => "[object Object]"
  end.

Definition mapHawiahTypeToSQL (type : type_decl) : string :=
  let t := toUpperCase (tag_text type) in
  if includes t "STRING" || includes t "TEXT" || includes t "EMAIL"
     || includes t "URL" || includes t "CHAR" then "TEXT"
  else if includes t "UUID" then "UUID"
  else if includes t "NUMBER" then
    if includes t "INT" then "INTEGER"
    else if includes t "BIGINT" then "BIGINT"
    else "REAL"
  else if includes t "BOOLEAN" then "BOOLEAN"
  else if includes t "DATE" then "TIMESTAMP"
  else if includes t "JSON" then "JSONB"
  else if includes t "BLOB" then "BYTEA"
  else "TEXT".

Definition id_column := Column "_id" "VARCHAR(100)" VNull.
Definition createdAt_column := Column "_createdAt" "TIMESTAMP" VNull.
Definition updatedAt_column := Column "_updatedAt" "TIMESTAMP" VNull.

(** With no schema field the column list of the hybrid table is empty and
    the statement reads [PRIMARY KEY, , _extras ...]. *)
Definition connect : M unit :=
  th <- get_this;;
  set_this (Driver (Some mkPool) (tableName th) (schema th) (dbType th));;;
  let createTableSQL :=
    match schema th with
    | Some s =>
        if hybrid th then
          let columns :=
            (fun '(key, type) => Column key (mapHawiahTypeToSQL type) VNull)
              <$> map_to_list (getDefinition s) in
          match columns with
          | [] => Malformed
          | _ => CreateTable ([id_column] ++ columns
                                ++ [Column "_extras" "JSONB" (VObj ∅);
                                    createdAt_column; updatedAt_column])%list
          end
        else CreateTable [id_column; Column "_data" "JSONB" VNull;
                          createdAt_column; updatedAt_column]
    | None => CreateTable [id_column; Column "_data" "JSONB" VNull;
                           createdAt_column; updatedAt_column]
    end in
  pool_query createTableSQL;;;
  pool_query (CreateIndex ("idx_" ++ tableName th ++ "_createdAt") "_createdAt");;;
  pool_query (CreateIndex ("idx_" ++ tableName th ++ "_updatedAt") "_updatedAt");;;
  ret tt.

Definition disconnect : M unit :=
  th <- get_this;;
  match pool th with
  | Some _ => set_this (Driver None (tableName th) (schema th) (dbType th))
  | None => ret tt
  end.

Definition ensureConnected : M unit :=
  th <- get_this;;
  match pool th with
  | None => throw NotConnected
  | Some _ => ret tt
  end.

Definition generateId : M string :=
  t <- Date_now;;
  r <- Math_random_toString36;;
  ret (Z_text t ++ "_" ++ substring 2 15 r).

Fixpoint matches_entries (record : value) (entries : list (string * value))
  : result bool :=
  match entries with
  | [] => Ok true
  | (key, v) :: rest =>
      rbind (get_prop record key) (fun x =>
      if negb (strict_eq x v) then Ok false
      else matches_entries record rest)
  end.

Definition matchesQuery (record : value) (query : object) : result bool :=
  matches_entries record (map_to_list query).

Definition reserved : list string := ["_id"; "_createdAt"; "_updatedAt"].

(** The definition is an object literal, so [key in definition] holds for
    the fields it names and for the names of [Object.prototype]. *)
Definition splitData (th : driver) (data : object) : object * object :=
  match schema th with
  | None => (∅, data)
  | Some s =>
      let definition := getDefinition s in
      map_fold
        (fun key v '(schemaData, extraData) =>
           if has_property definition key
           then (set_property schemaData key v, extraData)
           else if negb (bool_decide (key ∈ reserved))
           then (schemaData, set_property extraData key v)
           else (schemaData, extraData))
        (∅, ∅) data
  end.

Definition mergeData (row : object) : result object :=
  let _extras := default VUndef (row !! "_extras") in
  let rest := base.delete "_extras" row in
  rbind
    (match _extras with
     | VDate _ | VArr _ | VObj _ => Ok _extras   (* typeof 'object', not null *)
     | VStr text => JSON_parse text
     | _ => Ok (VObj ∅)
     end)
    (fun extras => Ok (spread2 rest (own_props extras))).

Definition set (data : object) : M object :=
  ensureConnected;;;
  id <- generateId;;
  now <- Date_now;;
  let record :=
    <["_updatedAt" := VStr (toISOString now)]>
      (<["_createdAt" := VStr (toISOString now)]>
         (<["_id" := VStr id]> data)) in
  th <- get_this;;
  (if hybrid th then
     let '(schemaData, extraData) := splitData th record in
     let schemaKeys := (map_to_list schemaData).*1 in
     let schemaValues := (map_to_list schemaData).*2 in
     let cols :=
       (["_id"] ++ schemaKeys ++ ["_extras"; "_createdAt"; "_updatedAt"])%list in
     let values :=
       ([PVal (VStr id)] ++ (PVal <$> schemaValues)
          ++ [PJson (VObj extraData); PVal (VDate now); PVal (VDate now)])%list in
     pool_query (InsertInto cols values)
   else
     pool_query (InsertInto ["_id"; "_data"; "_createdAt"; "_updatedAt"]
                   [PVal (VStr id); PJson (VObj record);
                    PVal (VDate now); PVal (VDate now)]));;;
  ret record.

Definition get (query : object) : M (list value) :=
  ensureConnected;;;
  th <- get_this;;
  if hybrid th then
    rows <- pool_query SelectAll;;
    records <- lift (mapM (fun row => rbind (mergeData row) (fun d => Ok (VObj d))) rows);;
    if bool_decide (map_to_list query = []) then ret records
    else lift (filterM (fun record => matchesQuery record query) records)
  else
    rows <- pool_query SelectData;;
    let allRecords := (fun row : row => default VUndef (row !! "_data")) <$> rows in
    if bool_decide (map_to_list query = []) then ret allRecords
    else lift (filterM (fun record => matchesQuery record query) allRecords).

Definition getOne (query : object) : M value :=
  ensureConnected;;;
  let _id := default VUndef (query !! "_id") in
  if truthy _id then
    th <- get_this;;
    if hybrid th then
      rows <- pool_query (SelectAllById _id);;
      match rows with
      | row :: _ => d <- lift (mergeData row);; ret (VObj d)
      | [] => ret VNull
      end
    else
      rows <- pool_query (SelectDataById _id);;
      match rows with
      | row :: _ => ret (default VUndef (row !! "_data"))
      | [] => ret VNull
      end
  else
    results <- get query;;
    match results with
    | r :: _ => ret r
    | [] => ret VNull
    end.

Definition schema_sets (schemaData : object) : list (string * param) :=
  (fun '(k, v) => (k, PVal v)) <$> map_to_list schemaData.

(** [{ ...record, ...data, _updatedAt: new Date().toISOString() }] *)
Definition updatedRecord (record : value) (data : object) (stamp : Z) : object :=
  <["_updatedAt" := VStr (toISOString stamp)]> (spread2 (own_props record) data).

Fixpoint update_loop (data : object) (records : list value) (count : Z) : M Z :=
  match records with
  | [] => ret count
  | record :: rest =>
      stamp <- Date_now;;
      let updated := updatedRecord record data stamp in
      now <- Date_now;;
      th <- get_this;;
      (if hybrid th then
         let '(schemaData, extraData) := splitData th updated in
         id <- lift (get_prop record "_id");;
         pool_query (UpdateSet (schema_sets schemaData
                                  ++ [("_extras", PJson (VObj extraData));
                                      ("_updatedAt", PVal (VDate now))])%list id)
       else
         id <- lift (get_prop record "_id");;
         pool_query (UpdateSet [("_data", PJson (VObj updated));
                                ("_updatedAt", PVal (VDate now))] id));;;
      update_loop data rest (count + 1)
  end.

Definition update (query data : object) : M Z :=
  ensureConnected;;;
  records <- get query;;
  update_loop data records 0.

Fixpoint delete_loop (records : list value) (count : Z) : M Z :=
  match records with
  | [] => ret count
  | record :: rest =>
      id <- lift (get_prop record "_id");;
      pool_query (DeleteById id);;;
      delete_loop rest (count + 1)
  end.

Definition delete (query : object) : M Z :=
  ensureConnected;;;
  records <- get query;;
  delete_loop records 0.

Definition exists_ (query : object) : M bool :=
  ensureConnected;;;
  r <- getOne query;;
  ret (match r with VNull => false | _ => true end).

(** [parseInt] on the decimal text PostgreSQL returns for COUNT. *)
Definition parseInt (v : value) : Z :=
  match v with
  | VStr s => digits_val 0 (fst (span_digits s))
  | _ => 0
  end.

Definition count (query : object) : M Z :=
  ensureConnected;;;
  if bool_decide (map_to_list query = []) then
    rows <- pool_query SelectCount;;
    match rows with
    | r :: _ => ret (parseInt (default VUndef (r !! "count")))
    | [] => throw TypeError
    end
  else
    results <- get query;;
    ret (Z.of_nat (List.length results)).

Definition clear : M unit :=
  ensureConnected;;; pool_query DeleteAll;;; ret tt.

End PostgreSQLDriver.
Import PostgreSQLDriver.

(** ** The earlier schema-less driver

    The driver shipped with the README keeps every record in [_data] and has
    no schema; its [ensureConnected], [generateId] and [matchesQuery] are the
    ones above, and its [set] and [get] read like the document-mode paths.
    Its [update] differs: it puts [_id] and [_createdAt] back after the
    merge. *)

Module SchemaLess.

Definition set (data : object) : M object :=
  ensureConnected;;;
  id <- generateId;;
  now <- Date_now;;
  let record :=
    <["_updatedAt" := VStr (toISOString now)]>
      (<["_createdAt" := VStr (toISOString now)]>
         (<["_id" := VStr id]> data)) in
  pool_query (InsertInto ["_id"; "_data"; "_createdAt"; "_updatedAt"]
                [PVal (VStr id); PJson (VObj record);
                 PVal (VDate now); PVal (VDate now)]);;;
  ret record.

Definition get (query : object) : M (list value) :=
  ensureConnected;;;
  rows <- pool_query SelectData;;
  let allRecords := (fun row : row => default VUndef (row !! "_data")) <$> rows in
  if bool_decide (map_to_list query = []) then ret allRecords
  else lift (filterM (fun record => matchesQuery record query) allRecords).

(** The merge, followed by [updatedRecord._id = record._id] and
    [updatedRecord._createdAt = record._createdAt]. *)
Definition updatedRecord (record : value) (data : object) (stamp : Z)
  : result object :=
  let merged :=
    <["_updatedAt" := VStr (toISOString stamp)]>
      (spread2 (own_props record) data) in
  rbind (get_prop record "_id") (fun id =>
  let merged := <["_id" := id]> merged in
  rbind (get_prop record "_createdAt") (fun created =>
  Ok (<["_createdAt" := created]> merged))).

Fixpoint update_loop (data : object) (records : list value) (count : Z) : M Z :=
  match records with
  | [] => ret count
  | record :: rest =>
      stamp <- Date_now;;
      updated <- lift (updatedRecord record data stamp);;
      now <- Date_now;;
      id <- lift (get_prop record "_id");;
      pool_query (UpdateSet [("_data", PJson (VObj updated));
                             ("_updatedAt", PVal (VDate now))] id);;;
      update_loop data rest (count + 1)
  end.

Definition update (query data : object) : M Z :=
  ensureConnected;;;
  records <- get query;;
  update_loop data records 0.

End SchemaLess.

(** ** Vocabulary of the statements

    Names for what the theorems talk about: the id and the time an insertion
    draws from the world, the record it builds, and a few sample worlds. *)

Module Spec.

(** [generateId()] in world [w]: the first clock reading, an underscore,
    and characters 2..14 of the next random draw. *)
Definition generated_id (w : world) : string :=
  Z_text (clock w (ticks w)) ++ "_" ++ substring 2 15 (random36 w (draws w)).

(** [now] of an insertion in world [w]: the second clock reading. *)
Definition insertion_time (w : world) : Z := clock w (S (ticks w)).

Definition stamped (w : world) (data : object) : object :=
  <["_updatedAt" := VStr (toISOString (insertion_time w))]>
    (<["_createdAt" := VStr (toISOString (insertion_time w))]>
       (<["_id" := VStr (generated_id w)]> data)).

(** The INSERT statement [set(data)] sends in world [w]. *)
Definition insert_of (w : world) (data : object) : stmt :=
  let id := generated_id w in
  let now := insertion_time w in
  let record := stamped w data in
  if hybrid (this w) then
    let sd := (splitData (this w) record).1 in
    let ed := (splitData (this w) record).2 in
    InsertInto
      (["_id"] ++ (map_to_list sd).*1 ++ ["_extras"; "_createdAt"; "_updatedAt"])%list
      ([PVal (VStr id)] ++ (PVal <$> (map_to_list sd).*2)
         ++ [PJson (VObj ed); PVal (VDate now); PVal (VDate now)])%list
  else
    InsertInto ["_id"; "_data"; "_createdAt"; "_updatedAt"]
      [PVal (VStr id); PJson (VObj record); PVal (VDate now); PVal (VDate now)].

(** A value [JSON.stringify] and [JSON.parse] give back unchanged. *)
Definition json_representable (v : value) : Prop := to_json v = Some v.

(** The rules of the type mapping that come before the NUMBER rule. *)
Definition textual (t : string) : bool :=
  includes t "STRING" || includes t "TEXT" || includes t "EMAIL"
  || includes t "URL" || includes t "CHAR" || includes t "UUID".

(** [extras] is what the blob of [row] holds: the blob is an object (not
    null) with these properties, or a text that parses to a value with
    these properties. *)
Definition parsed_blob (row extras : object) : Prop :=
  (exists v, row !! "_extras" = Some v /\ typeof v = "object" /\ v <> VNull /\
             extras = own_props v) \/
  (exists text v, row !! "_extras" = Some (VStr text) /\
                  JSON_parse text = Ok v /\ extras = own_props v).

(** The world, the value and the state after running a method. *)
Definition after {A} (m : M A) (w : world) : world := (m w).2.
Definition returned {A} (m : M A) (w : world) : result A := (m w).1.

(** A database with no table yet, a clock that advances by 7 ms per
    reading, and a random source. *)
Definition sample_clock (k : nat) : Z := 1730000000000 + 7 * Z.of_nat k.
Definition sample_random (k : nat) : string :=
  "0." ++ Z_text (Z.of_nat k) ++ "fzyo82mvyr2j4k".

Definition boot (th : driver) : world :=
  World th None [] sample_clock 0 sample_random 0.

(** A connected driver without schema: document mode. *)
Definition document_world : world := after connect (boot (new_driver "users")).

Definition sample_schema : schema_t :=
  Plain {[ "age" := TagString "number:integer"; "email" := TagString "string" ]}.

(** A connected driver with [sample_schema]: hybrid mode. *)
Definition hybrid_world : world :=
  after connect (after (setSchema (Some sample_schema)) (boot (new_driver "users"))).

End Spec.
Import Spec.

(** ** Vocabulary of the further properties *)

Module Props.

(** The statements that only read. *)
Definition is_select (s : stmt) : bool :=
  match s with
  | SelectAll | SelectData | SelectAllById _ | SelectDataById _ | SelectCount => true
  | _ => false
  end.

(** A method that reads only: whatever world it starts in, it leaves the
    driver object, the table, the clock and the random source as they
    were, and everything it sent is a SELECT. *)
Definition read_only {A} (m : M A) : Prop :=
  forall w,
    this (after m w) = this w /\ db (after m w) = db w /\
    ticks (after m w) = ticks w /\ draws (after m w) = draws w /\
    exists sent, log (after m w) = (log w ++ sent)%list /\
                 forallb is_select sent = true.

(** The document a row of the document-mode table holds, as [pg] hands it
    over for [SELECT _data]. *)
Definition doc_of (r : row) : value := default VNull (r !! "_data").

Definition documents (t : table) : list value := doc_of <$> rows t.

(** [matchesQuery] as a test: a throw counts as no match. *)
Definition matching (query : object) (d : value) : bool :=
  match matchesQuery d query with
  | Ok b => b
  | Throw _ => false
  end.

(** A document-mode table as the driver keeps it: it has the [_id] and
    [_data] columns, every row holds an object in [_data] whose [_id] is
    the text in the [_id] column, and no two rows have the same [_id]. *)
Definition row_kept (r : row) : Prop :=
  exists id m, r !! "_id" = Some (VStr id) /\ r !! "_data" = Some (VObj m) /\
               m !! "_id" = Some (VStr id).

Definition well_kept (t : table) : Prop :=
  has_column t "_id" = true /\ has_column t "_data" = true /\
  Forall row_kept (rows t) /\
  NoDup ((fun r : row => r !! "_id") <$> rows t).

(** The four columns of the document-mode table and the columns of the
    hybrid table for a definition, as [connect] creates them. *)
Definition document_columns : list column :=
  [id_column; Column "_data" "JSONB" VNull; createdAt_column; updatedAt_column].

(** The row test a run of [delete] amounts to: the row has the [_id] of
    one of the records. *)
Definition hit (records : list value) (r : row) : bool :=
  existsb (fun rec => match get_prop rec "_id" with
                      | Ok id => id_matches id r
                      | Throw _ => false
                      end) records.






(** A connected document-mode driver over a table of two records. *)
Definition al_row : row :=
  {[ "_id" := VStr "1_a";
     "_data" := VObj {[ "_id" := VStr "1_a"; "nickname" := VStr "Al" ]};
     "_createdAt" := VDate 1; "_updatedAt" := VDate 1 ]}.

Definition bo_row : row :=
  {[ "_id" := VStr "2_b";
     "_data" := VObj {[ "_id" := VStr "2_b"; "nickname" := VStr "Bo" ]};
     "_createdAt" := VDate 2; "_updatedAt" := VDate 2 ]}.

Definition two_rows : table := Table document_columns [al_row; bo_row].

Definition two_world : world :=
  World (Driver (Some mkPool) "users" None nosql) (Some two_rows) []
    sample_clock 0 sample_random 0.

End Props.
Import Props.

(** * Theorems *)

(** ** The type mapping *)

Section TypeMapping.

Lemma startsWith_app_includes (a b s : string) :
  startsWith s (a ++ b) = true -> includes s b = true.
Proof.
  revert s. induction a as [|c a IH]; intros s H.
  - change (startsWith s b = true) in H.
    destruct s; cbn [includes]; rewrite H; reflexivity.
  - change (startsWith s (String c (a ++ b)) = true) in H.
    destruct s as [|d s]; [discriminate|]. simpl in H.
    apply andb_true_iff in H as [_ H]. apply IH in H.
    cbn [includes]. rewrite H. apply orb_true_r.
Qed.

Lemma includes_app_r (a b s : string) :
  includes s (a ++ b) = true -> includes s b = true.
Proof.
  induction s as [|c s IH]; cbn [includes]; intros H.
  - rewrite orb_false_r in H. apply startsWith_app_includes in H.
    exact H.
  - apply orb_true_iff in H as [H|H].
    + apply (startsWith_app_includes a b (String c s)) in H. exact H.
    + rewrite (IH H). apply orb_true_r.
Qed.

Lemma includes_BIGINT_INT (t : string) :
  includes t "BIGINT" = true -> includes t "INT" = true.
Proof. apply (includes_app_r "BIG" "INT"). Qed.

Lemma toUpperCase_idemp (s : string) :
  toUpperCase (toUpperCase s) = toUpperCase s.
Proof.
  induction s as [|c s IH]; simpl; [reflexivity|]. rewrite IH. f_equal.
  destruct c as [[] [] [] [] [] [] [] []]; reflexivity.
Qed.

End TypeMapping.

(** ** The type mapping *)

Section TypeMappingFacts.

(** The tag is upper-cased before any rule is tried. *)
Lemma mapHawiahTypeToSQL_case_insensitive (t : string) :
  mapHawiahTypeToSQL (TagString (toUpperCase t)) = mapHawiahTypeToSQL (TagString t).
Proof. unfold mapHawiahTypeToSQL. simpl. rewrite toUpperCase_idemp. reflexivity. Qed.

(** NUMBER with INT, when no earlier rule applies, is INTEGER. *)
Lemma mapHawiahTypeToSQL_number_int (type : type_decl) :
  let t := toUpperCase (tag_text type) in
  textual t = false -> includes t "NUMBER" = true -> includes t "INT" = true ->
  mapHawiahTypeToSQL type = "INTEGER".
Proof.
  intros t Ht Hn Hi. unfold textual in Ht. unfold mapHawiahTypeToSQL. fold t.
  apply orb_false_iff in Ht as [Ht Hu]. rewrite Ht, Hu, Hn, Hi. reflexivity.
Qed.

(** NUMBER without INT, when no earlier rule applies, is REAL. *)
Lemma mapHawiahTypeToSQL_number_real (type : type_decl) :
  let t := toUpperCase (tag_text type) in
  textual t = false -> includes t "NUMBER" = true -> includes t "INT" = false ->
  mapHawiahTypeToSQL type = "REAL".
Proof.
  intros t Ht Hn Hi. unfold textual in Ht. unfold mapHawiahTypeToSQL. fold t.
  apply orb_false_iff in Ht as [Ht Hu]. rewrite Ht, Hu, Hn, Hi.
  destruct (includes t "BIGINT") eqn:Hb; [|reflexivity].
  apply includes_BIGINT_INT in Hb. congruence.
Qed.

(** C3 (the code departs from the claim): the BIGINT rule is tried after
    the INT rule, and every text that includes BIGINT includes INT.  So no
    tag is mapped to the 64-bit integer type, and the tag [number:bigint]
    gets INTEGER. *)
Theorem mapHawiahTypeToSQL_never_BIGINT :
  (forall type : type_decl, mapHawiahTypeToSQL type <> "BIGINT") /\
  mapHawiahTypeToSQL (TagString "number:bigint") = "INTEGER" /\
  mapHawiahTypeToSQL (TagString "Number:BigInt") = "INTEGER".
Proof.
  split; [|split; reflexivity].
  intros type. unfold mapHawiahTypeToSQL.
  set (t := toUpperCase (tag_text type)).
  repeat match goal with
         | |- (if ?c then _ else _) <> _ => destruct c eqn:?; try discriminate
         end.
  match goal with
  | H : includes t "BIGINT" = true |- _ => apply includes_BIGINT_INT in H
  end.
  congruence.
Qed.

End TypeMappingFacts.

(** ** The connection guard *)

Lemma ensureConnected_throws (w : world) :
  pool (this w) = None -> ensureConnected w = (Throw NotConnected, w).
Proof.
  intros H. unfold ensureConnected, bind, get_this, throw. rewrite H. reflexivity.
Qed.

Lemma ensureConnected_passes (w : world) :
  pool (this w) <> None -> ensureConnected w = (Ok tt, w).
Proof.
  intros H. unfold ensureConnected, bind, get_this, ret.
  destruct (pool (this w)); [reflexivity | congruence].
Qed.

(** Step over the [ensureConnected()] a method starts with. *)
Ltac pass_guard Hc :=
  unfold bind at 1; rewrite (ensureConnected_passes _ Hc).

Ltac fail_guard Hp :=
  unfold bind at 1; rewrite (ensureConnected_throws _ Hp).

(** ** Operations on a driver that is not connected *)

Section NotConnected.

(** C8 (as amended): while [this.pool] is null, which is the case before
    the first [connect] and after [disconnect], every document operation
    throws the not-connected error and hands back the world it was given: no
    statement is sent (the log is the same), the table, the driver object,
    the clock and the random source are untouched. *)
Theorem not_connected_no_io (w : world) (query data : object) :
  pool (this w) = None ->
  set data w = (Throw NotConnected, w) /\
  get query w = (Throw NotConnected, w) /\
  getOne query w = (Throw NotConnected, w) /\
  update query data w = (Throw NotConnected, w) /\
  delete query w = (Throw NotConnected, w) /\
  exists_ query w = (Throw NotConnected, w) /\
  count query w = (Throw NotConnected, w).
Proof.
  intros H.
  unfold set, get, getOne, update, delete, exists_, count.
  repeat split; fail_guard H; reflexivity.
Qed.

(** A driver that was built and never connected. *)
Lemma not_connected_no_io_witness :
  let w := boot (new_driver "users") in
  let data : object := {[ "nickname" := VStr "Al" ]} in
  set data w = (Throw NotConnected, w) /\
  get data w = (Throw NotConnected, w) /\
  getOne data w = (Throw NotConnected, w) /\
  update data data w = (Throw NotConnected, w) /\
  delete data w = (Throw NotConnected, w) /\
  exists_ data w = (Throw NotConnected, w) /\
  count data w = (Throw NotConnected, w).
Proof.
  intros w data. apply (not_connected_no_io w data data). reflexivity.
Defined.

(** C8 as stated fails: the guard looks at [this.pool], and [connect] sets
    it before it sends its statements.  Here a table [users] of another
    shape is already there: the first CREATE INDEX is refused, [connect]
    throws, the store was never provisioned, and still [get] answers and
    [delete] sends its statements and removes the row. *)
Lemma failed_connect_passes_guard :
  let stale :=
    Table [id_column; Column "_data" "JSONB" VNull]
      [ {[ "_id" := VStr "1_a"; "_data" := VObj {[ "_id" := VStr "1_a" ]} ]} ] in
  let w0 := World (new_driver "users") (Some stale) [] sample_clock 0 sample_random 0 in
  let w := after connect w0 in
  returned connect w0 = Throw no_column /\
  db w = Some stale /\
  returned (get ∅) w = Ok [VObj {[ "_id" := VStr "1_a" ]}] /\
  returned (delete ∅) w = Ok 1 /\
  db (after (delete ∅) w) = Some (Table (columns stale) []) /\
  log (after (delete ∅) w) = (log w ++ [SelectData; DeleteById (VStr "1_a")])%list /\
  delete ∅ w <> (Throw NotConnected, w).
Proof.
  intros stale w0 w.
  assert (H : returned (delete ∅) w = Ok 1) by (vm_compute; reflexivity).
  split; [vm_compute; reflexivity|]. split; [vm_compute; reflexivity|].
  split; [vm_compute; reflexivity|]. split; [exact H|].
  split; [vm_compute; reflexivity|]. split; [vm_compute; reflexivity|].
  intros E. unfold returned in H. rewrite E in H. discriminate H.
Qed.

End NotConnected.

(** ** Splitting a document and merging a row *)

Section SplitAndMerge.

Lemma has_property_proto {A} (own : gmap string A) :
  has_property own "__proto__" = true.
Proof. unfold has_property. apply orb_true_r. Qed.

Lemma set_property_lookup (obj : object) (i key : string) (x : value) :
  set_property obj i x !! key =
    (if bool_decide (i = key) && negb (String.eqb key "__proto__")
     then Some x else obj !! key).
Proof.
  unfold set_property. case_bool_decide as E; cbn [andb].
  - subst i. destruct (String.eqb key "__proto__"); cbn [negb];
      [reflexivity | apply lookup_insert_eq].
  - destruct (String.eqb i "__proto__"); [reflexivity|].
    apply lookup_insert_ne. exact E.
Qed.

(** What [splitData] leaves under a key: the value of the document goes to
    [schemaData] when the key is [in] the definition and is not
    [__proto__], to [extraData] when the key is not [in] the definition and
    is not reserved. *)
Lemma splitData_lookup (th : driver) (s : schema_t) (data : object) (key : string) :
  schema th = Some s ->
  (splitData th data).1 !! key =
    (if has_property (getDefinition s) key && negb (String.eqb key "__proto__")
     then data !! key else None) /\
  (splitData th data).2 !! key =
    (if has_property (getDefinition s) key || bool_decide (key ∈ reserved)
     then None else data !! key).
Proof.
  intros Hs. unfold splitData. rewrite Hs.
  apply (map_fold_weak_ind (fun (acc : object * object) (m : object) =>
    acc.1 !! key =
      (if has_property (getDefinition s) key && negb (String.eqb key "__proto__")
       then m !! key else None) /\
    acc.2 !! key =
      (if has_property (getDefinition s) key || bool_decide (key ∈ reserved)
       then None else m !! key))).
  - cbn [fst snd]. rewrite !lookup_empty.
    split; [destruct (_ && _) | destruct (_ || _)]; reflexivity.
  - intros i x m [sd ed] Hi [IH1 IH2]. cbn [fst snd] in *.
    destruct (decide (i = key)) as [->|Hne].
    + rewrite lookup_insert_eq. rewrite Hi in IH1, IH2.
      destruct (has_property (getDefinition s) key) eqn:Hp; cbn [fst snd andb orb] in *.
      * rewrite set_property_lookup, bool_decide_true by reflexivity. cbn [andb].
        split; [|exact IH2].
        destruct (String.eqb key "__proto__"); cbn [negb] in *; [exact IH1 | reflexivity].
      * destruct (bool_decide (key ∈ reserved)) eqn:Hr; cbn [negb fst snd] in *;
          (split; [exact IH1|]); [exact IH2|].
        rewrite set_property_lookup, bool_decide_true by reflexivity. cbn [andb].
        destruct (String.eqb_spec key "__proto__") as [->|_]; [|reflexivity].
        rewrite has_property_proto in Hp. discriminate.
    + rewrite (lookup_insert_ne m) by exact Hne.
      destruct (has_property (getDefinition s) i); cbn [fst snd];
        [|destruct (bool_decide (i ∈ reserved)); cbn [negb fst snd]];
        rewrite ?set_property_lookup, ?bool_decide_false by exact Hne;
        cbn [andb]; split; assumption.
Qed.

Lemma reserved_not_inherited (key : string) :
  key ∈ reserved -> key ∉ Object_prototype.
Proof.
  unfold reserved. rewrite !elem_of_cons, elem_of_nil.
  intros [->|[->|[->|[]]]] H; apply (bool_decide_pack _) in H;
    vm_compute in H; exact H.
Qed.

(** A reserved key is [in] a definition only when the definition names it. *)
Lemma reserved_not_in_definition {A} (d : gmap string A) (key : string) :
  key ∈ reserved -> d !! key = None -> has_property d key = false.
Proof.
  intros Hr Hd. unfold has_property.
  rewrite bool_decide_false by (rewrite Hd; apply is_Some_None).
  rewrite bool_decide_false by (apply reserved_not_inherited; exact Hr).
  reflexivity.
Qed.

(** C1 (the code departs from the claim): [splitData] tests
    [key in definition], which follows the prototype chain.  For every
    definition, an entry goes to [schemaData] when its key is a field of the
    definition or a name of [Object.prototype] other than [__proto__], and to
    [extraData] when its key is neither [in] the definition nor reserved.
    So with the schema [{age, email}] the fields [age], [nickname] and [_id]
    are placed as the claim says, but [constructor], which the schema does
    not name, is in [schemaData] and not in [extraData]; with the empty
    definition [toString] is not in [extraData] either; an own [__proto__]
    field is in neither part; and [set] of a document with a [constructor]
    field names a column [connect] never created and is refused. *)
Theorem splitData_inherited_names :
  (forall (getter : bool) (p : option Pool) (name : string) (mode : db_type)
          (d : definition) (data : object) (key : string),
     let s := if getter then WithGetDefinition d else Plain d in
     let th := Driver p name (Some s) mode in
     (splitData th data).1 !! key =
       (if has_property d key && negb (String.eqb key "__proto__")
        then data !! key else None) /\
     (splitData th data).2 !! key =
       (if has_property d key || bool_decide (key ∈ reserved)
        then None else data !! key)) /\
  let th := Driver None "users" (Some sample_schema) sql in
  let empty := Driver None "users" (Some (Plain ∅)) sql in
  getDefinition sample_schema !! "constructor" = None /\
  splitData th {[ "age" := int 30; "nickname" := VStr "Al"; "_id" := VStr "1_x";
                  "constructor" := VStr "x" ]}
    = ({[ "age" := int 30; "constructor" := VStr "x" ]}, {[ "nickname" := VStr "Al" ]}) /\
  splitData empty {[ "nickname" := VStr "Al"; "toString" := VStr "x" ]}
    = ({[ "toString" := VStr "x" ]}, {[ "nickname" := VStr "Al" ]}) /\
  splitData th {[ "__proto__" := VStr "x" ]} = (∅, ∅) /\
  returned (set {[ "constructor" := VStr "x" ]}) hybrid_world = Throw no_column.
Proof.
  split.
  - intros getter p name mode d data key s th.
    assert (E : getDefinition s = d) by (destruct getter; reflexivity).
    rewrite <- E. apply splitData_lookup. reflexivity.
  - repeat split; vm_compute; reflexivity.
Qed.

(** C2: when the blob of a row is an object, or a text that parses,
    [mergeData] returns the properties of the blob laid over the other
    columns of the row.  A key present in both carries the blob's value;
    a key the blob does not have carries the column's. *)
Theorem mergeData_overlay (row extras : object) :
  parsed_blob row extras ->
  exists doc,
    mergeData row = Ok doc /\
    doc = extras ∪ base.delete "_extras" row /\
    (forall key v, extras !! key = Some v -> doc !! key = Some v) /\
    (forall key, extras !! key = None -> key <> "_extras" -> doc !! key = row !! key).
Proof.
  intros H. exists (extras ∪ base.delete "_extras" row).
  split; [|split; [reflexivity|split]].
  - unfold mergeData, spread2.
    destruct H as [(v & H & Ht & Hn & ->) | (text & v & H & Hp & ->)];
      rewrite H; simpl.
    + destruct v; try discriminate; try congruence; reflexivity.
    + rewrite Hp. reflexivity.
  - intros key v Hk. apply lookup_union_Some_l. exact Hk.
  - intros key Hk Hne. rewrite lookup_union_r by exact Hk.
    apply lookup_delete_ne. congruence.
Qed.

(** A column [age = 30] and a blob that also has [age]: the blob wins. *)
Lemma mergeData_overlay_witness :
  exists doc,
    mergeData {[ "age" := int 30; "_extras" := VObj {[ "age" := int 31 ]} ]} = Ok doc /\
    doc !! "age" = Some (int 31).
Proof.
  destruct (mergeData_overlay
              {[ "age" := int 30; "_extras" := VObj {[ "age" := int 31 ]} ]}
              {[ "age" := int 31 ]}) as (doc & H1 & _ & H2 & _).
  - left. exists (VObj {[ "age" := int 31 ]}).
    split; [reflexivity|]. split; [reflexivity|]. split; [discriminate | reflexivity].
  - exists doc. split; [exact H1|]. apply H2. reflexivity.
Defined.

(** C9 (as amended): when the blob is neither an object nor a string
    (it is absent, null, a boolean or a number), [mergeData] returns the
    other columns of the row; when the blob is a string that JSON.parse
    rejects, the SyntaxError of JSON.parse is what [mergeData] throws. *)
Theorem mergeData_without_blob (row : object) :
  let blob := default VUndef (row !! "_extras") in
  ((typeof blob <> "object" \/ blob = VNull) -> typeof blob <> "string" ->
   mergeData row = Ok (base.delete "_extras" row)) /\
  (forall text e, blob = VStr text -> JSON_parse text = Throw e ->
   mergeData row = Throw e).
Proof.
  intros blob. split.
  - intros Ho Hs. unfold mergeData. fold blob.
    destruct blob; simpl in *; try (destruct Ho; congruence); try congruence;
      unfold spread2; simpl; rewrite (left_id_L ∅ (∪)); reflexivity.
  - intros text e Hb Hp. unfold mergeData. fold blob. rewrite Hb. simpl.
    rewrite Hp. reflexivity.
Qed.

Lemma mergeData_without_blob_witness :
  mergeData {[ "age" := int 30; "_extras" := VNull ]}
    = Ok (base.delete "_extras" ({[ "age" := int 30; "_extras" := VNull ]} : object)) /\
  mergeData {[ "age" := int 30; "_extras" := VStr "{" ]} = Throw SyntaxError.
Proof.
  split.
  - apply (mergeData_without_blob {[ "age" := int 30; "_extras" := VNull ]}).
    + right. reflexivity.
    + vm_compute. discriminate.
  - apply (mergeData_without_blob {[ "age" := int 30; "_extras" := VStr "{" ]})
      with (text := "{"); reflexivity.
Defined.

(** C9 as stated fails: the blob ["{"] is not an object and is not a
    parseable JSON text, yet [mergeData] throws instead of returning the
    columns. *)
Lemma mergeData_unparseable_blob_throws :
  let row : object := {[ "age" := int 30; "_extras" := VStr "{" ]} in
  typeof (default VUndef (row !! "_extras")) = "string" /\
  JSON_parse "{" = Throw SyntaxError /\
  mergeData row = Throw SyntaxError /\
  mergeData row <> Ok (base.delete "_extras" row).
Proof.
  repeat split; try reflexivity. discriminate.
Qed.

End SplitAndMerge.

(** ** Insertion *)

Section Insertion.

(** A run that returns [r] is the pair of [r] and the world it leaves. *)
Lemma returned_after {A} (m : M A) (w : world) (r : A) :
  returned m w = Ok r -> m w = (Ok r, after m w).
Proof.
  unfold returned, after. destruct (m w) as [x w']. simpl. intros ->. reflexivity.
Qed.

(** [set] on a connected driver: two clock readings and one random draw,
    then one INSERT; the record is returned when the INSERT succeeds. *)
Lemma set_run (w : world) (data : object) :
  pool (this w) <> None ->
  set data w =
    let w1 db' := World (this w) db' (log w ++ [insert_of w data]) (clock w)
                    (S (S (ticks w))) (random36 w) (S (draws w)) in
    match exec (insert_of w data) (db w) with
    | Ok (_, db') => (Ok (stamped w data), w1 db')
    | Throw e => (Throw e, w1 (db w))
    end.
Proof.
  intros Hc. unfold set. pass_guard Hc.
  unfold bind, generateId, Date_now, Math_random_toString36, ret, get_this,
    pool_query, insert_of; simpl.
  fold (generated_id w). fold (insertion_time w). fold (stamped w data).
  destruct (hybrid (this w)).
  - destruct (splitData (this w) (stamped w data)) as [sd ed]. simpl.
    destruct (exec _ (db w)) as [[rs db']|e]; reflexivity.
  - simpl. destruct (exec _ (db w)) as [[rs db']|e]; reflexivity.
Qed.

Lemma set_returns_connected (w w' : world) (data r : object) :
  set data w = (Ok r, w') -> pool (this w) <> None.
Proof.
  intros H Hp. unfold set in H. unfold bind at 1 in H.
  rewrite (ensureConnected_throws w Hp) in H. discriminate.
Qed.

Lemma generated_id_nonempty (w : world) : generated_id w <> EmptyString.
Proof. unfold generated_id. destruct (Z_text _); discriminate. Qed.

Lemma names_lookup (g : column -> value) (cols : list column) (c : string) :
  (list_to_map ((fun col => (cname col, g col)) <$> cols) : object) !! c =
    g <$> List.find (fun col => String.eqb (cname col) c) cols.
Proof.
  induction cols as [|col cols IH]; simpl.
  - apply lookup_empty.
  - destruct (String.eqb_spec (cname col) c) as [<-|Hne].
    + apply lookup_insert_eq.
    + rewrite lookup_insert_ne by done. exact IH.
Qed.

Lemma find_has_column (t : table) (c : string) :
  has_column t c = true ->
  exists col, List.find (fun col => String.eqb (cname col) c) (columns t) = Some col.
Proof.
  unfold has_column. intros H. apply bool_decide_eq_true in H.
  apply list_elem_of_fmap in H as (col & -> & Hin).
  destruct (List.find _ (columns t)) as [col'|] eqn:E; [eauto|].
  apply list_elem_of_In in Hin.
  eapply find_none in E; [|exact Hin]. simpl in E.
  rewrite String.eqb_refl in E. discriminate.
Qed.

(** A column named in the INSERT holds the value given for it. *)
Lemma new_row_assigned (t : table) (assigned : row) (c : string) (v : value) :
  has_column t c = true -> assigned !! c = Some v ->
  new_row t assigned !! c = Some v.
Proof.
  intros Hc Ha. unfold new_row.
  rewrite (names_lookup (fun col => default (cdefault col) (assigned !! cname col))).
  destruct (find_has_column t c Hc) as (col & E). rewrite E. simpl.
  apply find_some in E as [_ E]. apply String.eqb_eq in E. rewrite E, Ha. reflexivity.
Qed.

Lemma exec_insert_ok cols vals db0 rs db' :
  exec (InsertInto cols vals) db0 = Ok (rs, db') ->
  exists t,
    let r := new_row t (list_to_map (zip cols (cell <$> vals))) in
    db0 = Some t /\ db' = Some (Table (columns t) (rows t ++ [r])) /\
    forallb (has_column t) cols = true /\ NoDup cols /\
    existsb (id_matches (default VNull (r !! "_id"))) (rows t) = false.
Proof.
  unfold exec. destruct db0 as [t|]; [|discriminate].
  unfold exec_on.
  destruct (forallb (has_column t) cols) eqn:Hc; [|discriminate]. simpl.
  case_bool_decide as Hn; [|discriminate]. simpl.
  destruct (_ =? _)%nat; [|discriminate]. simpl.
  destruct (existsb _ (rows t)) eqn:He; [discriminate|].
  intros [= <- <-]. exists t. simpl. auto.
Qed.

Lemma assigned_tail (keys tk : list string) (vals tv : list value) (k : string) :
  List.length keys = List.length vals -> k ∉ keys ->
  (list_to_map (zip (keys ++ tk) (vals ++ tv)) : object) !! k =
  (list_to_map (zip tk tv) : object) !! k.
Proof.
  intros Hl Hk. rewrite zip_with_app by exact Hl.
  rewrite list_to_map_app, lookup_union_r; [reflexivity|].
  apply not_elem_of_list_to_map_1. rewrite fst_zip; [exact Hk|]. lia.
Qed.

(** What the INSERT of [set] assigns to the three reserved columns. *)
Lemma insert_of_assigns (w : world) (data : object) cols vals :
  insert_of w data = InsertInto cols vals -> NoDup cols ->
  let a : object := list_to_map (zip cols (cell <$> vals)) in
  a !! "_id" = Some (VStr (generated_id w)) /\
  a !! "_createdAt" = Some (VDate (insertion_time w)) /\
  a !! "_updatedAt" = Some (VDate (insertion_time w)) /\
  (hybrid (this w) = false ->
   a !! "_data" = Some (default VNull (to_json (VObj (stamped w data))))).
Proof.
  unfold insert_of. destruct (hybrid (this w)) eqn:Hh.
  - intros [= <- <-] Hn. simpl.
    split; [apply lookup_insert_eq|].
    apply NoDup_cons in Hn as [Hid Hn]. apply NoDup_app in Hn as (_ & Hdis & _).
    set (sd := (splitData (this w) (stamped w data)).1) in *.
    rewrite !fmap_app.
    assert (Hc : "_createdAt" ∉ (map_to_list sd).*1).
    { intros Hin. apply (Hdis _ Hin). rewrite !elem_of_cons. auto. }
    assert (Hu : "_updatedAt" ∉ (map_to_list sd).*1).
    { intros Hin. apply (Hdis _ Hin). rewrite !elem_of_cons. auto. }
    split; [|split; [|discriminate]].
    + rewrite lookup_insert_ne by discriminate.
      rewrite assigned_tail; [reflexivity | by rewrite !length_fmap | exact Hc].
    + rewrite lookup_insert_ne by discriminate.
      rewrite assigned_tail; [reflexivity | by rewrite !length_fmap | exact Hu].
  - intros [= <- <-] _. simpl. repeat split; reflexivity.
Qed.

End Insertion.

Section InsertionTheorems.

Lemma insert_of_cols (w : world) (data : object) cols vals :
  insert_of w data = InsertInto cols vals ->
  In "_id" cols /\ In "_createdAt" cols /\ In "_updatedAt" cols /\
  (hybrid (this w) = false -> In "_data" cols).
Proof.
  unfold insert_of. destruct (hybrid (this w)); intros [= <- <-].
  - repeat split; try discriminate; simpl; rewrite ?in_app_iff; simpl; auto 10.
  - simpl. auto 10.
Qed.

(** The state an insertion leaves: the row appended to the table. *)
Lemma set_appends (w w' : world) (data r : object) :
  set data w = (Ok r, w') ->
  exists t cols vals,
    let row := new_row t (list_to_map (zip cols (cell <$> vals))) in
    r = stamped w data /\
    insert_of w data = InsertInto cols vals /\
    db w = Some t /\ this w' = this w /\
    db w' = Some (Table (columns t) (rows t ++ [row])) /\
    forallb (has_column t) cols = true /\ NoDup cols /\
    existsb (id_matches (default VNull (row !! "_id"))) (rows t) = false.
Proof.
  intros H. pose proof (set_returns_connected _ _ _ _ H) as Hc.
  rewrite (set_run w data Hc) in H. cbv zeta in H.
  destruct (insert_of w data) as [| | |cols vals| | | | | | | |] eqn:Hi;
    try (unfold insert_of in Hi; destruct (hybrid (this w)); discriminate).
  destruct (exec (InsertInto cols vals) (db w)) as [[rs db']|e] eqn:He; [|discriminate].
  injection H as <- <-.
  apply exec_insert_ok in He as (t & Hdb & Hdb' & Hcols & Hn & Hex).
  exists t, cols, vals. simpl. repeat split; assumption.
Qed.

Lemma no_match_other_id (id : string) (l : list row) (r0 : row) :
  existsb (id_matches (VStr id)) l = false -> r0 ∈ l -> r0 !! "_id" <> Some (VStr id).
Proof.
  intros He Hin Hr. apply list_elem_of_In in Hin.
  assert (Hm : id_matches (VStr id) r0 = true)
    by (unfold id_matches; rewrite Hr; simpl; apply String.eqb_refl).
  assert (existsb (id_matches (VStr id)) l = true)
    by (apply existsb_exists; eauto).
  congruence.
Qed.

(** Without a schema the driver inserts and reads exactly as the
    schema-less driver does. *)
Lemma schemaless_set_is_document_set (w : world) (data : object) :
  hybrid (this w) = false -> SchemaLess.set data w = set data w.
Proof.
  intros Hh. unfold SchemaLess.set, set.
  destruct (pool (this w)) as [p|] eqn:Hp.
  - assert (Hc : pool (this w) <> None) by congruence.
    pass_guard Hc. symmetry. pass_guard Hc.
    unfold bind, generateId, Date_now, Math_random_toString36, ret, get_this.
    simpl. rewrite Hh. reflexivity.
  - fail_guard Hp. symmetry. fail_guard Hp. reflexivity.
Qed.

Lemma schemaless_get_is_document_get (w : world) (query : object) :
  hybrid (this w) = false -> SchemaLess.get query w = get query w.
Proof.
  intros Hh. unfold SchemaLess.get, get.
  destruct (pool (this w)) as [p|] eqn:Hp.
  - assert (Hc : pool (this w) <> None) by congruence.
    pass_guard Hc. symmetry. pass_guard Hc.
    unfold bind, get_this. simpl. rewrite Hh. reflexivity.
  - fail_guard Hp. symmetry. fail_guard Hp. reflexivity.
Qed.

(** C10: whatever the document holds, also under the keys [_id],
    [_createdAt] and [_updatedAt], the record [set] returns carries the id
    generated from the clock and the random source and the ISO text of the
    insertion time under both timestamps; every other key keeps the
    caller's value.  The table gains one row, which has that id and that
    time in its three reserved columns; no row already there has that id;
    and in document mode the JSON in [_data] carries the same three fields
    as the returned record. *)
Theorem set_assigns_reserved_fields (w w' : world) (data r : object) :
  set data w = (Ok r, w') ->
  let id := VStr (generated_id w) in
  let stamp := VStr (toISOString (insertion_time w)) in
  (r !! "_id" = Some id /\ r !! "_createdAt" = Some stamp /\
   r !! "_updatedAt" = Some stamp) /\
  (forall key, key ∉ reserved -> r !! key = data !! key) /\
  exists t0 t row,
    db w = Some t0 /\ db w' = Some t /\ rows t = (rows t0 ++ [row])%list /\
    (forall r0, r0 ∈ rows t0 -> r0 !! "_id" <> Some id) /\
    row !! "_id" = Some id /\
    row !! "_createdAt" = Some (VDate (insertion_time w)) /\
    row !! "_updatedAt" = Some (VDate (insertion_time w)) /\
    (hybrid (this w) = false ->
     exists stored,
       row !! "_data" = Some (VObj stored) /\
       stored !! "_id" = Some id /\ stored !! "_createdAt" = Some stamp /\
       stored !! "_updatedAt" = Some stamp).
Proof.
  intros H id stamp.
  apply set_appends in H
    as (t & cols & vals & -> & Hi & Hdb & _ & Hdb' & Hcols & Hn & Hex).
  cbv zeta in Hdb', Hex.
  destruct (insert_of_assigns w data cols vals Hi Hn) as (A1 & A2 & A3 & A4).
  destruct (insert_of_cols w data cols vals Hi) as (C1 & C2 & C3 & C4).
  rewrite forallb_forall in Hcols.
  set (row := new_row t (list_to_map (zip cols (cell <$> vals)))) in *.
  assert (Rid : row !! "_id" = Some id) by (apply new_row_assigned; auto).
  split; [|split].
  - unfold stamped. repeat split.
    + rewrite !lookup_insert_ne by discriminate. apply lookup_insert_eq.
    + rewrite lookup_insert_ne by discriminate. apply lookup_insert_eq.
    + apply lookup_insert_eq.
  - intros key Hk. unfold stamped, reserved in *.
    rewrite !elem_of_cons, elem_of_nil in Hk.
    rewrite !lookup_insert_ne by (intros <-; tauto). reflexivity.
  - exists t, (Table (columns t) (rows t ++ [row])), row.
    split; [exact Hdb|]. split; [exact Hdb'|]. split; [reflexivity|].
    split.
    { rewrite Rid in Hex. simpl in Hex. intros r0. apply no_match_other_id. exact Hex. }
    split; [exact Rid|].
    split; [apply new_row_assigned; auto|].
    split; [apply new_row_assigned; auto|].
    intros Hh. exists (omap to_json (stamped w data)).
    split; [apply new_row_assigned; auto|].
    unfold stamped. rewrite !lookup_omap.
    rewrite !lookup_insert_ne by discriminate. rewrite !lookup_insert_eq.
    rewrite lookup_insert_ne by discriminate. rewrite !lookup_insert_eq.
    repeat split; reflexivity.
Qed.

End InsertionTheorems.

Section ReadBack.

Lemma to_json_stamped (w : world) (data : object) :
  json_representable (VObj data) -> to_json (VObj (stamped w data)) = Some (VObj (stamped w data)).
Proof.
  unfold json_representable. simpl. intros [= H]. unfold stamped.
  rewrite !(omap_insert_Some to_json _ _ (VStr _) (VStr _) eq_refl).
  rewrite H. reflexivity.
Qed.

Lemma filter_no_match (id : value) (l : list row) :
  existsb (id_matches id) l = false -> List.filter (id_matches id) l = [].
Proof.
  induction l as [|x l IH]; simpl; [reflexivity|].
  intros H. apply orb_false_iff in H as [Hx Hl]. rewrite Hx. auto.
Qed.

Lemma stamped_fields (w : world) (data : object) :
  stamped w data !! "_id" = Some (VStr (generated_id w)) /\
  stamped w data !! "_createdAt" = Some (VStr (toISOString (insertion_time w))) /\
  stamped w data !! "_updatedAt" = Some (VStr (toISOString (insertion_time w))).
Proof.
  unfold stamped. repeat split.
  - rewrite !lookup_insert_ne by discriminate. apply lookup_insert_eq.
  - rewrite lookup_insert_ne by discriminate. apply lookup_insert_eq.
  - apply lookup_insert_eq.
Qed.

(** C4 (as amended): when [set] returns on a connected driver, the
    record has a non-empty [_id] and equal [_createdAt] and [_updatedAt].
    In document mode, for a JSON-representable document, reading by that
    id right after returns the same record. *)
Theorem set_then_getOne (w w' : world) (data r : object) :
  pool (this w) <> None ->
  set data w = (Ok r, w') ->
  exists id stamp,
    r !! "_id" = Some (VStr id) /\ id <> EmptyString /\
    r !! "_createdAt" = Some stamp /\ r !! "_updatedAt" = Some stamp /\
    (hybrid (this w) = false -> json_representable (VObj data) ->
     returned (getOne {[ "_id" := VStr id ]}) w' = Ok (VObj r)).
Proof.
  intros Hc H.
  apply set_appends in H
    as (t & cols & vals & -> & Hi & Hdb & Hth & Hdb' & Hcols & Hn & Hex).
  destruct (stamped_fields w data) as (R1 & R2 & R3).
  exists (generated_id w), (VStr (toISOString (insertion_time w))).
  split; [exact R1|]. split; [apply generated_id_nonempty|].
  split; [exact R2|]. split; [exact R3|].
  intros Hh Hj.
  cbv zeta in Hdb', Hex.
  destruct (insert_of_assigns w data cols vals Hi Hn) as (A1 & _ & _ & A4).
  destruct (insert_of_cols w data cols vals Hi) as (C1 & _ & _ & C4).
  rewrite forallb_forall in Hcols.
  set (row := new_row t (list_to_map (zip cols (cell <$> vals)))) in *.
  assert (Rid : row !! "_id" = Some (VStr (generated_id w)))
    by (apply new_row_assigned; auto).
  assert (Rdata : row !! "_data" = Some (VObj (stamped w data))).
  { apply new_row_assigned; [auto|]. rewrite (A4 Hh), to_json_stamped by exact Hj.
    reflexivity. }
  rewrite Rid in Hex. simpl in Hex.
  unfold returned, getOne. unfold bind at 1.
  rewrite ensureConnected_passes by (rewrite Hth; exact Hc).
  rewrite lookup_singleton_eq. simpl.
  destruct (String.eqb_spec (generated_id w) EmptyString) as [E|_];
    [exfalso; exact (generated_id_nonempty w E)|]. simpl.
  unfold bind, get_this, pool_query. simpl. rewrite Hth, Hh, Hdb'. simpl.
  assert (Hid : has_column (Table (columns t) (rows t ++ [row])) "_id" = true)
    by (apply (Hcols "_id"); exact C1).
  assert (Hdata : has_column (Table (columns t) (rows t ++ [row])) "_data" = true)
    by (apply (Hcols "_data"); auto).
  rewrite Hid, Hdata. simpl.
  rewrite List.filter_app, (filter_no_match _ _ Hex). simpl.
  unfold id_matches at 1. rewrite Rid. simpl. rewrite String.eqb_refl. simpl.
  rewrite Rdata. unfold ret. simpl. rewrite lookup_singleton_eq. reflexivity.
Qed.

End ReadBack.

Section InsertionExamples.

(** A caller who supplies its own [_id] and [_createdAt] gets the
    generated ones back. *)
Lemma set_assigns_reserved_fields_witness :
  let data : object := {[ "_id" := VStr "mine"; "_createdAt" := VStr "then";
                          "nickname" := VStr "Al" ]} in
  let r := stamped document_world data in
  r !! "_id" = Some (VStr "1730000000000_0fzyo82mvyr2j") /\
  r !! "_createdAt" = Some (VStr "2024-10-27T03:33:20.007Z") /\
  r !! "_updatedAt" = Some (VStr "2024-10-27T03:33:20.007Z").
Proof.
  intros data r.
  destruct (set_assigns_reserved_fields document_world
              (after (set data) document_world) data r) as (H & _).
  - apply returned_after. vm_compute. reflexivity.
  - vm_compute in H. vm_compute. exact H.
Defined.

(** Document mode: the record inserted is the record read back. *)
Lemma set_then_getOne_witness :
  let data : object := {[ "nickname" := VStr "Al"; "tags" := VArr [VStr "a"; int 1] ]} in
  let w' := after (set data) document_world in
  exists id stamp,
    stamped document_world data !! "_id" = Some (VStr id) /\ id <> EmptyString /\
    stamped document_world data !! "_createdAt" = Some stamp /\
    stamped document_world data !! "_updatedAt" = Some stamp /\
    returned (getOne {[ "_id" := VStr id ]}) w' = Ok (VObj (stamped document_world data)).
Proof.
  intros data w'.
  destruct (set_then_getOne document_world w' data (stamped document_world data))
    as (id & stamp & H1 & H2 & H3 & H4 & H5).
  - vm_compute. discriminate.
  - apply returned_after. vm_compute. reflexivity.
  - exists id, stamp. repeat split; try assumption.
    apply H5; vm_compute; reflexivity.
Defined.

(** C4 as stated fails in hybrid mode.  With the schema
    [{age, email}] and the document [{nickname: "Al"}], the record
    returned by [set] has no [age] and carries its timestamps as ISO
    texts; the document read back by that id has [age: null] (the column
    left empty) and carries the [Date] of the timestamp column. *)
Lemma hybrid_read_back_differs :
  let data : object := {[ "nickname" := VStr "Al" ]} in
  let id := "1730000000000_0fzyo82mvyr2j" in
  let r : object :=
    {[ "_id" := VStr id; "nickname" := VStr "Al";
       "_createdAt" := VStr "2024-10-27T03:33:20.007Z";
       "_updatedAt" := VStr "2024-10-27T03:33:20.007Z" ]} in
  let doc : object :=
    {[ "_id" := VStr id; "nickname" := VStr "Al";
       "age" := VNull; "email" := VNull;
       "_createdAt" := VDate 1730000000007;
       "_updatedAt" := VDate 1730000000007 ]} in
  pool (this hybrid_world) <> None /\
  set data hybrid_world = (Ok r, after (set data) hybrid_world) /\
  returned (getOne {[ "_id" := VStr id ]}) (after (set data) hybrid_world)
    = Ok (VObj doc) /\
  r !! "age" = None /\ doc !! "age" = Some VNull /\
  VObj doc <> VObj r.
Proof.
  intros data id r doc.
  split; [vm_compute; discriminate|].
  split; [apply returned_after; vm_compute; reflexivity|].
  split; [vm_compute; reflexivity|].
  split; [vm_compute; reflexivity|].
  split; [vm_compute; reflexivity|].
  intros E.
  apply (f_equal (fun v => match v with VObj m => m !! "age" | _ => None end)) in E.
  vm_compute in E. discriminate E.
Qed.

End InsertionExamples.

(** ** Reading one record *)

Section GetOne.

Lemma take_1_filter {A} (f : A -> bool) (l : list A) :
  take 1 (List.filter f l) =
    match List.find f l with Some x => [x] | None => [] end.
Proof.
  induction l as [|x l IH]; simpl; [reflexivity|].
  destruct (f x); simpl; [reflexivity | exact IH].
Qed.

Lemma getOne_without_id (w : world) (query : object) :
  pool (this w) <> None ->
  truthy (default VUndef (query !! "_id")) = false ->
  getOne query w =
    match get query w with
    | (Ok (r :: _), w') => (Ok r, w')
    | (Ok [], w') => (Ok VNull, w')
    | (Throw e, w') => (Throw e, w')
    end.
Proof.
  intros Hc Ht. unfold getOne. unfold bind at 1. rewrite Ht.
  rewrite (ensureConnected_passes w Hc). unfold bind.
  destruct (get query w) as [[[|r rs]|e] w']; reflexivity.
Qed.

(** C7 (as amended): on a connected driver, a criteria whose [_id] is
    truthy (a non-empty string, say) is answered by one SELECT by that id
    and nothing else: no scan is sent, and the answer is the first row with
    that id, or null.  Any other criteria, also one whose [_id] is the
    empty string, zero, false or null, is answered by the first element of
    [get], or null. *)
Theorem getOne_paths (w : world) (query : object) :
  pool (this w) <> None ->
  let _id := default VUndef (query !! "_id") in
  (truthy _id = true ->
     log (after (getOne query) w)
       = (log w ++ [if hybrid (this w) then SelectAllById _id
                    else SelectDataById _id])%list /\
     forall t, db w = Some t -> has_column t "_id" = true ->
       (hybrid (this w) = false -> has_column t "_data" = true) ->
       returned (getOne query) w =
         match List.find (id_matches _id) (rows t) with
         | Some row =>
             if hybrid (this w)
             then rbind (mergeData row) (fun d => Ok (VObj d))
             else Ok (default VNull (row !! "_data"))
         | None => Ok VNull
         end) /\
  (truthy _id = false ->
     getOne query w =
       match get query w with
       | (Ok (r :: _), w') => (Ok r, w')
       | (Ok [], w') => (Ok VNull, w')
       | (Throw e, w') => (Throw e, w')
       end).
Proof.
  intros Hc _id. split; intros Ht.
  - split.
    + unfold after, getOne. pass_guard Hc.
      fold _id. rewrite Ht. unfold bind, get_this, pool_query. simpl.
      destruct (hybrid (this w)).
      * destruct (exec _ (db w)) as [[[|row rs] db']|e]; simpl; try reflexivity.
        unfold lift. destruct (mergeData row); reflexivity.
      * destruct (exec _ (db w)) as [[[|row rs] db']|e]; reflexivity.
    + intros t Hdb Hid Hdata.
      unfold returned, getOne. pass_guard Hc.
      fold _id. rewrite Ht. unfold bind, get_this, pool_query. simpl.
      destruct (hybrid (this w)).
      * rewrite Hdb. simpl. rewrite Hid. simpl. rewrite take_1_filter.
        destruct (List.find _ (rows t)) as [row|]; simpl; [|reflexivity].
        unfold lift. destruct (mergeData row); reflexivity.
      * rewrite Hdb. simpl. rewrite Hid, (Hdata eq_refl). simpl.
        rewrite take_1_filter.
        destruct (List.find _ (rows t)) as [row|]; simpl; [|reflexivity].
        rewrite lookup_singleton_eq. reflexivity.
  - apply getOne_without_id; assumption.
Qed.

Lemma getOne_paths_witness :
  let w := after (set {[ "nickname" := VStr "Al" ]}) document_world in
  let id := VStr "1730000000000_0fzyo82mvyr2j" in
  log (after (getOne {[ "_id" := id; "nickname" := VStr "Bob" ]}) w)
    = (log w ++ [SelectDataById id])%list /\
  getOne {[ "nickname" := VStr "Bob" ]} w =
    match get {[ "nickname" := VStr "Bob" ]} w with
    | (Ok (r :: _), w') => (Ok r, w')
    | (Ok [], w') => (Ok VNull, w')
    | (Throw e, w') => (Throw e, w')
    end.
Proof.
  intros w id.
  assert (Hc : pool (this w) <> None) by (vm_compute; discriminate).
  split.
  - destruct (getOne_paths w {[ "_id" := id; "nickname" := VStr "Bob" ]} Hc)
      as [H _].
    destruct (H eq_refl) as [L _]. exact L.
  - destruct (getOne_paths w {[ "nickname" := VStr "Bob" ]} Hc) as [_ H].
    exact (H eq_refl).
Defined.

(** C7 as stated fails: the criteria [{_id: ""}] contains [_id], yet
    [getOne] sends the full scan [SELECT _data FROM t] and no SELECT by
    id. *)
Lemma getOne_empty_id_scans :
  let w := after (set {[ "nickname" := VStr "Al" ]}) document_world in
  let query : object := {[ "_id" := VStr EmptyString ]} in
  pool (this w) <> None /\
  is_Some (query !! "_id") /\
  log (after (getOne query) w) = (log w ++ [SelectData])%list /\
  log (after (getOne query) w)
    <> (log w ++ [SelectDataById (VStr EmptyString)])%list.
Proof.
  intros w query.
  split; [vm_compute; discriminate|].
  split; [vm_compute; eauto|].
  split; [vm_compute; reflexivity|].
  vm_compute. intros [= E].
Qed.

End GetOne.

(** ** Updating records *)

Section Update.

(** A field of the patch other than [_updatedAt] is the field of the
    merged record: nothing puts [_id] or [_createdAt] back. *)
Lemma updatedRecord_patch_wins (record : value) (data : object) (stamp : Z)
    (key : string) (v : value) :
  data !! key = Some v -> key <> "_updatedAt" ->
  updatedRecord record data stamp !! key = Some v.
Proof.
  intros Hd Hk. unfold updatedRecord, spread2.
  rewrite lookup_insert_ne by congruence.
  apply lookup_union_Some_l. exact Hd.
Qed.


Lemma updatedRecord_refreshes (record : value) (data : object) (stamp : Z) :
  updatedRecord record data stamp !! "_updatedAt" = Some (VStr (toISOString stamp)).
Proof. apply lookup_insert_eq. Qed.

(** [update] returns the number of records it went through. *)
Lemma update_loop_count (data : object) (records : list value) :
  forall (c n : Z) (w w' : world),
    update_loop data records c w = (Ok n, w') ->
    n = c + Z.of_nat (List.length records).
Proof.
  induction records as [|record rest IH]; intros c n w w' H.
  - injection H as <- _. simpl. lia.
  - cbn [update_loop] in H. unfold bind at 1 2 3 4 in H.
    unfold Date_now at 1 2, get_this at 1 in H. cbn [fst snd this] in H.
    match type of H with
    | context [hybrid ?th] => destruct (hybrid th)
    end.
    + destruct (splitData _ _) as [sd ed].
      unfold bind at 1 in H. unfold lift at 1 in H.
      destruct (get_prop record "_id") as [id|e]; [|discriminate].
      destruct (pool_query _ _) as [[rs|e] w1]; [|discriminate].
      apply IH in H. rewrite H. cbn [List.length]. lia.
    + unfold bind at 1 in H. unfold lift at 1 in H.
      destruct (get_prop record "_id") as [id|e]; [|discriminate].
      destruct (pool_query _ _) as [[rs|e] w1]; [|discriminate].
      apply IH in H. rewrite H. cbn [List.length]. lia.
Qed.

(** In hybrid mode the reserved keys never reach the SET list of the
    UPDATE, unless the schema names them as fields. *)
Lemma hybrid_update_skips_reserved (th : driver) (s : schema_t)
    (updated : object) (key : string) :
  schema th = Some s -> key ∈ reserved -> getDefinition s !! key = None ->
  key ∉ (schema_sets (splitData th updated).1).*1.
Proof.
  intros Hs Hr Hd Hin.
  destruct (splitData_lookup th s updated key Hs) as [Hnone _].
  rewrite (reserved_not_in_definition _ key Hr Hd) in Hnone.
  unfold schema_sets in Hin. rewrite <- list_fmap_compose in Hin.
  apply list_elem_of_fmap in Hin as ([k v] & -> & Hin).
  apply elem_of_map_to_list in Hin. simpl in Hnone. congruence.
Qed.

(** The schema-less driver puts [_id] and [_createdAt] of the record back
    after the merge, whatever the patch holds. *)
Lemma schemaless_updatedRecord_restores (m data updated : object) (stamp : Z) :
  SchemaLess.updatedRecord (VObj m) data stamp = Ok updated ->
  updated !! "_id" = Some (default VUndef (m !! "_id")) /\
  updated !! "_createdAt" = Some (default VUndef (m !! "_createdAt")).
Proof.
  unfold SchemaLess.updatedRecord. simpl. intros [= <-]. split.
  - rewrite lookup_insert_ne by discriminate. apply lookup_insert_eq.
  - apply lookup_insert_eq.
Qed.

(** C5 (the code departs from the claim): in document mode a patch that
    holds [_id] and [_createdAt] overwrites both in the stored record.
    One record is inserted, then every record is updated with the patch
    [{_id: "stolen", _createdAt: "never", nickname: "Bo"}]: [update]
    returns 1, and the record read afterwards has the patch's [_id] and
    [_createdAt] instead of the ones it was created with, while the [_id]
    column of its row is unchanged.  The same two calls on the schema-less
    driver leave both fields as they were. *)
Theorem update_overwrites_id_and_createdAt :
  let w1 := after (set {[ "nickname" := VStr "Al" ]}) document_world in
  let patch : object :=
    {[ "_id" := VStr "stolen"; "_createdAt" := VStr "never";
       "nickname" := VStr "Bo" ]} in
  let original : object :=
    {[ "_id" := VStr "1730000000000_0fzyo82mvyr2j";
       "_createdAt" := VStr "2024-10-27T03:33:20.007Z";
       "_updatedAt" := VStr "2024-10-27T03:33:20.007Z";
       "nickname" := VStr "Al" ]} in
  returned (get ∅) w1 = Ok [VObj original] /\
  returned (update ∅ patch) w1 = Ok 1 /\
  returned (get ∅) (after (update ∅ patch) w1)
    = Ok [VObj {[ "_id" := VStr "stolen"; "_createdAt" := VStr "never";
                  "_updatedAt" := VStr "2024-10-27T03:33:20.014Z";
                  "nickname" := VStr "Bo" ]}] /\
  ((fun t => (fun r : row => r !! "_id") <$> rows t) <$> db (after (update ∅ patch) w1))
    = Some [Some (VStr "1730000000000_0fzyo82mvyr2j")] /\
  returned (SchemaLess.get ∅) (after (SchemaLess.update ∅ patch) w1)
    = Ok [VObj {[ "_id" := VStr "1730000000000_0fzyo82mvyr2j";
                  "_createdAt" := VStr "2024-10-27T03:33:20.007Z";
                  "_updatedAt" := VStr "2024-10-27T03:33:20.014Z";
                  "nickname" := VStr "Bo" ]}].
Proof. repeat split; vm_compute; reflexivity. Qed.

(** Hybrid mode, same two calls: the reserved columns are not in the SET
    list, and the record read afterwards has the [_id] it was created
    with. *)
Lemma hybrid_update_keeps_id :
  let w1 := after (set {[ "nickname" := VStr "Al" ]}) hybrid_world in
  let patch : object :=
    {[ "_id" := VStr "stolen"; "_createdAt" := VStr "never";
       "nickname" := VStr "Bo" ]} in
  returned (update ∅ patch) w1 = Ok 1 /\
  exists doc,
    returned (get ∅) (after (update ∅ patch) w1) = Ok [VObj doc] /\
    doc !! "_id" = Some (VStr "1730000000000_0fzyo82mvyr2j") /\
    doc !! "_createdAt" = Some (VDate 1730000000007) /\
    doc !! "nickname" = Some (VStr "Bo").
Proof.
  split; [vm_compute; reflexivity|].
  eexists. repeat split; vm_compute; reflexivity.
Qed.

End Update.

(** ** Existence *)

Section Exists.

Lemma filterM_matches (query : object) (l ys : list value) :
  filterM (fun record => matchesQuery record query) l = Ok ys ->
  Forall (fun y => matchesQuery y query = Ok true) ys.
Proof.
  revert ys. induction l as [|x l IH]; simpl; intros ys H.
  - injection H as <-. constructor.
  - destruct (matchesQuery x query) as [b|e] eqn:Hx; [|discriminate]. simpl in H.
    destruct (filterM _ l) as [zs|e]; [|discriminate]. simpl in H.
    injection H as <-. destruct b; [constructor|]; auto.
Qed.

Lemma matchesQuery_null (query : object) :
  map_to_list query <> [] -> matchesQuery VNull query = Throw TypeError.
Proof.
  unfold matchesQuery. destruct (map_to_list query) as [|[k v] l]; [congruence|].
  reflexivity.
Qed.

(** The records [get] returns for a non-empty criteria are not null. *)
Lemma get_results_not_null (w w' : world) (query : object) (rs : list value) :
  map_to_list query <> [] -> get query w = (Ok rs, w') -> VNull ∉ rs.
Proof.
  intros Hq H Hin. unfold get in H. unfold bind in H.
  destruct (ensureConnected w) as [[[]|e] w0]; [|discriminate].
  unfold get_this in H.
  rewrite bool_decide_false in H by exact Hq.
  assert (F : Forall (fun y => matchesQuery y query = Ok true) rs).
  { destruct (hybrid (this w0)).
    - destruct (pool_query SelectAll w0) as [[rows|e] w1]; [|discriminate].
      unfold lift in H.
      destruct (mapM _ rows) as [records|e]; [|discriminate].
      destruct (filterM _ records) as [ys|e] eqn:Hf; [|discriminate].
      injection H as <- _. exact (filterM_matches _ _ _ Hf).
    - destruct (pool_query SelectData w0) as [[rows|e] w1]; [|discriminate].
      unfold lift in H.
      destruct (filterM _ _) as [ys|e] eqn:Hf; [|discriminate].
      injection H as <- _. exact (filterM_matches _ _ _ Hf). }
  rewrite Forall_forall in F. specialize (F _ Hin).
  rewrite (matchesQuery_null query Hq) in F. discriminate.
Qed.

(** Where [exists] and [get] do agree: a non-empty criteria without a
    truthy [_id]. *)
Lemma exists_agrees_without_id (w w' : world) (query : object) (rs : list value) :
  truthy (default VUndef (query !! "_id")) = false ->
  map_to_list query <> [] ->
  get query w = (Ok rs, w') ->
  exists_ query w = (Ok (negb (bool_decide (rs = []))), w').
Proof.
  intros Ht Hq H.
  pose proof (get_results_not_null w w' query rs Hq H) as Hn.
  assert (Hc : pool (this w) <> None).
  { intros Hp. unfold get in H. unfold bind at 1 in H.
    rewrite (ensureConnected_throws w Hp) in H. discriminate. }
  unfold exists_. pass_guard Hc.
  unfold bind at 1.
  rewrite (getOne_without_id w query Hc Ht), H.
  destruct rs as [|r rs]; [reflexivity|].
  unfold ret. destruct r; try reflexivity.
  exfalso. apply Hn. left.
Qed.

(** C6 (the code departs from the claim): with a truthy [_id] in the
    criteria, [exists] asks for the row with that id and looks at nothing
    else.  After inserting [{nickname: "Al"}], the criteria made of its id
    and [nickname: "Bob"] matches no record, [get] returns the empty list,
    and [exists] returns true. *)
Theorem exists_ignores_other_criteria :
  let w := after (set {[ "nickname" := VStr "Al" ]}) document_world in
  let query : object :=
    {[ "_id" := VStr "1730000000000_0fzyo82mvyr2j"; "nickname" := VStr "Bob" ]} in
  returned (get query) w = Ok [] /\
  returned (exists_ query) w = Ok true /\
  db (after (get query) w) = db w /\ db (after (exists_ query) w) = db w.
Proof. repeat split; vm_compute; reflexivity. Qed.

End Exists.

(** * Further properties *)

(** ** Criteria *)

Section Criteria.

Lemma get_prop_total (record : value) (key : string) :
  record <> VNull -> record <> VUndef -> exists x, get_prop record key = Ok x.
Proof.
  intros Hn Hu. destruct record; simpl; try congruence; eauto;
    destruct (String.eqb key "length"); eauto.
Qed.

Lemma matches_entries_spec (record : value) (entries : list (string * value)) :
  record <> VNull -> record <> VUndef ->
  exists b,
    matches_entries record entries = Ok b /\
    (b = true <->
     forall key v, (key, v) ∈ entries ->
       exists x, get_prop record key = Ok x /\ strict_eq x v = true).
Proof.
  intros Hn Hu. induction entries as [|[k v] rest (b & Hb & IH)].
  - exists true. split; [reflexivity|]. split; [|reflexivity].
    intros _ key v Hin. apply elem_of_nil in Hin. destruct Hin.
  - destruct (get_prop_total record k Hn Hu) as (x & Hx).
    cbn [matches_entries]. rewrite Hx. cbn [rbind].
    destruct (strict_eq x v) eqn:Hs; cbn [negb].
    + exists b. split; [exact Hb|]. rewrite IH. split.
      * intros H key v' Hin. apply elem_of_cons in Hin as [[= -> ->]|Hin]; eauto.
      * intros H key v' Hin. apply H. apply elem_of_cons. auto.
    + exists false. split; [reflexivity|]. split; [discriminate|].
      intros H. destruct (H k v) as (x' & Hx' & Hs'); [apply elem_of_cons; auto|].
      congruence.
Qed.

(** X1: a criteria is a conjunction of strict equalities.  On a record
    that is not null or undefined [matchesQuery] always answers, and it
    answers true exactly when every key of the criteria reads, on the
    record, a value strictly equal to the expected one (a key the record
    lacks reads [undefined], or the inherited member when it is a name of
    [Object.prototype]).  The empty criteria matches everything; a
    non-empty criteria on a null record is a TypeError. *)
Theorem matchesQuery_conjunction (record : value) (query : object) :
  (record <> VNull -> record <> VUndef ->
   exists b,
     matchesQuery record query = Ok b /\
     (b = true <->
      forall key v, query !! key = Some v ->
        exists x, get_prop record key = Ok x /\ strict_eq x v = true)) /\
  matchesQuery record ∅ = Ok true /\
  (query <> ∅ -> matchesQuery VNull query = Throw TypeError).
Proof.
  split; [|split].
  - intros Hn Hu. unfold matchesQuery.
    destruct (matches_entries_spec record (map_to_list query) Hn Hu) as (b & Hb & H).
    exists b. split; [exact Hb|]. rewrite H. split.
    + intros A key v Hq. apply A. apply elem_of_map_to_list. exact Hq.
    + intros A key v Hin. apply A. apply elem_of_map_to_list. exact Hin.
  - unfold matchesQuery. rewrite map_to_list_empty. reflexivity.
  - intros Hq. unfold matchesQuery.
    destruct (map_to_list query) as [|[k v] l] eqn:E.
    + apply map_to_list_empty_iff in E. congruence.
    + reflexivity.
Qed.

Lemma matchesQuery_conjunction_witness :
  let record := VObj {[ "name" := VStr "Al"; "age" := int 30 ]} in
  exists b,
    matchesQuery record {[ "age" := int 30 ]} = Ok b /\
    (b = true <->
     forall key v, ({[ "age" := int 30 ]} : object) !! key = Some v ->
       exists x, get_prop record key = Ok x /\ strict_eq x v = true).
Proof.
  intros record.
  destruct (matchesQuery_conjunction record {[ "age" := int 30 ]}) as (H & _).
  apply H; discriminate.
Defined.

End Criteria.

(** ** Reading never writes *)

Section ReadOnly.

Lemma read_only_ret {A} (a : A) : read_only (ret a).
Proof.
  intros w. unfold after, ret. simpl. repeat split.
  exists []. rewrite app_nil_r. auto.
Qed.

Lemma read_only_lift {A} (r : result A) : read_only (lift r).
Proof.
  intros w. unfold after, lift. simpl. repeat split.
  exists []. rewrite app_nil_r. auto.
Qed.

Lemma read_only_throw {A} (e : error) : read_only (@throw A e).
Proof.
  intros w. unfold after, throw. simpl. repeat split.
  exists []. rewrite app_nil_r. auto.
Qed.

Lemma read_only_get_this : read_only get_this.
Proof.
  intros w. unfold after, get_this. simpl. repeat split.
  exists []. rewrite app_nil_r. auto.
Qed.

Lemma read_only_bind {A B} (m : M A) (k : A -> M B) :
  read_only m -> (forall a, read_only (k a)) -> read_only (bind m k).
Proof.
  intros Hm Hk w. specialize (Hm w). unfold after in *. unfold bind.
  destruct (m w) as [[a|e] w1]; simpl in *.
  - specialize (Hk a w1). unfold after in Hk.
    destruct (k a w1) as [r w2]; simpl in *.
    destruct Hm as (M1 & M2 & M3 & M4 & l1 & M5 & M6).
    destruct Hk as (K1 & K2 & K3 & K4 & l2 & K5 & K6).
    repeat split; try congruence.
    exists (l1 ++ l2)%list. rewrite K5, M5, app_assoc. split; [reflexivity|].
    rewrite forallb_app, M6, K6. reflexivity.
  - exact Hm.
Qed.

Lemma exec_select (s : stmt) (d : option table) rs d' :
  is_select s = true -> exec s d = Ok (rs, d') -> d' = d.
Proof.
  intros Hs. destruct d as [t|]; [|destruct s; discriminate].
  unfold exec. destruct s; try discriminate; simpl;
    repeat match goal with
           | |- context [if ?c then _ else _] => destruct c
           end; intros [= <- <-]; reflexivity.
Qed.

Lemma read_only_select (s : stmt) : is_select s = true -> read_only (pool_query s).
Proof.
  intros Hs w. unfold after, pool_query.
  destruct (exec s (db w)) as [[rs d']|e] eqn:E; simpl.
  - apply (exec_select s _ _ _ Hs) in E. subst d'. repeat split.
    exists [s]. simpl. rewrite Hs. auto.
  - repeat split. exists [s]. simpl. rewrite Hs. auto.
Qed.

Lemma read_only_ensureConnected : read_only ensureConnected.
Proof.
  unfold ensureConnected. apply read_only_bind; [apply read_only_get_this|].
  intros th. destruct (pool th); [apply read_only_ret | apply read_only_throw].
Qed.

Create HintDb read_only.

#[local] Hint Resolve read_only_ret read_only_lift read_only_throw
  read_only_get_this read_only_ensureConnected : read_only.

Ltac read_only_step :=
  repeat first
    [ apply read_only_bind; [|intros ?]
    | apply read_only_select; reflexivity
    | solve [auto with read_only]
    | match goal with
      | |- read_only (if ?c then _ else _) => destruct c
      | |- read_only (match ?x with _ => _ end) => destruct x
      end ].

Lemma read_only_get (query : object) : read_only (get query).
Proof. unfold get. read_only_step. Qed.

Lemma read_only_getOne (query : object) : read_only (getOne query).
Proof.
  unfold getOne.
  apply read_only_bind; [auto with read_only|]. intros _.
  destruct (truthy _).
  - read_only_step.
  - apply read_only_bind; [apply read_only_get|]. intros rs.
    destruct rs; auto with read_only.
Qed.

(** X2: the four read operations never write.  In any world, connected or
    not, [get], [getOne], [exists] and [count] leave the table and the
    driver object as they were, do not read the clock or the random source,
    and send nothing but SELECT statements. *)
Theorem reads_never_write (query : object) :
  read_only (get query) /\ read_only (getOne query) /\
  read_only (exists_ query) /\ read_only (count query).
Proof.
  split; [apply read_only_get|]. split; [apply read_only_getOne|]. split.
  - unfold exists_. apply read_only_bind; [auto with read_only|]. intros _.
    apply read_only_bind; [apply read_only_getOne|]. intros r.
    auto with read_only.
  - unfold count. apply read_only_bind; [auto with read_only|]. intros _.
    destruct (bool_decide _).
    + read_only_step.
    + apply read_only_bind; [apply read_only_get|]. intros rs.
      auto with read_only.
Qed.

End ReadOnly.

(** ** Decimal texts *)

Section DecimalText.

Lemma digits_val_acc (d : Decimal.uint) (acc : positive) :
  digits_val (Z.pos acc) (NilEmpty.string_of_uint d) = Z.pos (Pos.of_uint_acc d acc).
Proof.
  revert acc. induction d; intros acc; cbn [NilEmpty.string_of_uint Pos.of_uint_acc];
    [reflexivity | cbn [digits_val]; rewrite <- IHd; f_equal; vm_compute N_of_ascii; lia ..].
Qed.

Lemma digits_val_uint (d : Decimal.uint) :
  digits_val 0 (NilEmpty.string_of_uint d) = Z.of_N (Pos.of_uint d).
Proof.
  induction d; cbn [NilEmpty.string_of_uint Pos.of_uint digits_val];
    [reflexivity | exact IHd | apply (digits_val_acc d) ..].
Qed.

Lemma span_digits_uint (d : Decimal.uint) :
  span_digits (NilEmpty.string_of_uint d) = (NilEmpty.string_of_uint d, EmptyString).
Proof.
  induction d; cbn [NilEmpty.string_of_uint span_digits];
    [reflexivity | rewrite IHd; reflexivity ..].
Qed.

Lemma to_uint_not_nil (p : positive) : Pos.to_uint p <> Decimal.Nil.
Proof.
  intros H. pose proof (DecimalPos.Unsigned.of_to p) as E. rewrite H in E. discriminate.
Qed.

Lemma NilZero_NilEmpty (p : positive) :
  NilZero.string_of_uint (Pos.to_uint p) = NilEmpty.string_of_uint (Pos.to_uint p).
Proof.
  pose proof (to_uint_not_nil p). unfold NilZero.string_of_uint.
  destruct (Pos.to_uint p); [congruence | reflexivity ..].
Qed.

(** [parseInt] reads back the decimal text of a count. *)
Lemma parseInt_Z_text (n : nat) :
  parseInt (VStr (Z_text (Z.of_nat n))) = Z.of_nat n.
Proof.
  unfold parseInt, Z_text. destruct (Z.of_nat n) as [|p|p] eqn:E; [reflexivity| |lia].
  cbn [Z.to_int NilZero.string_of_int]. rewrite NilZero_NilEmpty.
  rewrite span_digits_uint. cbn [fst]. rewrite digits_val_uint.
  rewrite DecimalPos.Unsigned.of_to. reflexivity.
Qed.

Lemma Z_text_inj (a b : Z) : Z_text a = Z_text b -> a = b.
Proof.
  unfold Z_text. intros H.
  assert (N : forall z, Z.to_int z <> Decimal.Pos Decimal.Nil /\
                        Z.to_int z <> Decimal.Neg Decimal.Nil).
  { intros [|p|p]; simpl; split; try discriminate;
      intros [= E]; exact (to_uint_not_nil p E). }
  apply (f_equal NilZero.int_of_string) in H.
  rewrite !NilZero.isi in H by apply N.
  injection H as H. apply (f_equal Z.of_int) in H.
  rewrite !DecimalZ.of_to in H. exact H.
Qed.

End DecimalText.

(** ** Counting *)

Section Counting.

Lemma mapM_length {A B} (f : A -> result B) (l : list A) (ys : list B) :
  mapM f l = Ok ys -> List.length ys = List.length l.
Proof.
  revert ys. induction l as [|x l IH]; simpl; intros ys H.
  - injection H as <-. reflexivity.
  - destruct (f x) as [y|e]; [|discriminate]. simpl in H.
    destruct (mapM f l) as [zs|e]; [|discriminate]. simpl in H.
    injection H as <-. simpl. f_equal. auto.
Qed.

Lemma connected_of_get (w w' : world) (query : object) (rs : list value) :
  get query w = (Ok rs, w') -> pool (this w) <> None.
Proof.
  intros H Hp. unfold get in H. revert H. fail_guard Hp. discriminate.
Qed.

Lemma count_all (w w1 : world) (query : object) (n : Z) :
  pool (this w) <> None -> map_to_list query = [] ->
  count query w = (Ok n, w1) ->
  exists t, db w = Some t /\ n = Z.of_nat (List.length (rows t)).
Proof.
  intros Hc Hq. unfold count. pass_guard Hc. rewrite bool_decide_true by exact Hq.
  unfold bind, pool_query, ret. destruct (db w) as [t|]; [|discriminate].
  simpl. intros [= <- _]. exists t. split; [reflexivity|].
  rewrite lookup_singleton_eq. simpl. apply parseInt_Z_text.
Qed.

Lemma get_all_length (w w2 : world) (query : object) (rs : list value) (t : table) :
  pool (this w) <> None -> map_to_list query = [] -> db w = Some t ->
  get query w = (Ok rs, w2) -> List.length rs = List.length (rows t).
Proof.
  intros Hc Hq Hdb. unfold get. pass_guard Hc. rewrite bool_decide_true by exact Hq.
  unfold bind at 1. unfold get_this at 1.
  destruct (hybrid (this w)); unfold bind, pool_query, lift, ret; rewrite Hdb; simpl.
  - destruct (mapM _ (rows t)) as [records|e] eqn:E; [|discriminate].
    intros [= <- _]. exact (mapM_length _ _ _ E).
  - destruct (has_column t "_data"); [|discriminate]. simpl.
    intros [= <- _]. rewrite !length_fmap. reflexivity.
Qed.

(** X3: [count] agrees with [get].  Started in the same world, when both
    return, the number [count] returns is the length of the list [get]
    returns, for the empty criteria too, where [count] asks PostgreSQL for
    COUNT and parses the decimal text it gets back. *)
Theorem count_is_length_of_get (w w1 w2 : world) (query : object)
    (n : Z) (rs : list value) :
  count query w = (Ok n, w1) -> get query w = (Ok rs, w2) ->
  n = Z.of_nat (List.length rs).
Proof.
  intros Hcount Hget. pose proof (connected_of_get _ _ _ _ Hget) as Hc.
  destruct (decide (map_to_list query = [])) as [Hq|Hq].
  - destruct (count_all _ _ _ _ Hc Hq Hcount) as (t & Hdb & ->).
    rewrite (get_all_length _ _ _ _ _ Hc Hq Hdb Hget). reflexivity.
  - revert Hcount. unfold count. pass_guard Hc.
    rewrite bool_decide_false by exact Hq.
    unfold bind. rewrite Hget. unfold ret. intros [= <- _]. reflexivity.
Qed.

Lemma count_is_length_of_get_witness :
  let w := after (set {[ "nickname" := VStr "Al" ]}) document_world in
  returned (count ∅) w = Ok 1 /\ (List.length <$> match returned (get ∅) w with
                                   | Ok rs => Some rs | Throw _ => None end) = Some 1%nat.
Proof.
  intros w.
  assert (Hc : returned (count ∅) w = Ok 1) by (vm_compute; reflexivity).
  destruct (returned (get ∅) w) as [rs|e] eqn:Hg; [|vm_compute in Hg; discriminate].
  split; [exact Hc|]. simpl. f_equal.
  pose proof (count_is_length_of_get w _ _ ∅ 1 rs
                (returned_after _ _ _ Hc) (returned_after _ _ _ Hg)) as H.
  lia.
Defined.

End Counting.

(** ** Finding records in document mode *)

Section Find.

Lemma filterM_total {A} (f : A -> result bool) (l : list A) :
  Forall (fun x => exists b, f x = Ok b) l ->
  filterM f l = Ok (List.filter (fun x => match f x with Ok b => b | Throw _ => false end) l).
Proof.
  induction 1 as [|x l (b & Hx) _ IH]; simpl; [reflexivity|].
  rewrite Hx, IH. simpl. destruct b; reflexivity.
Qed.

Lemma filter_all {A} (f : A -> bool) (l : list A) :
  Forall (fun x => f x = true) l -> List.filter f l = l.
Proof.
  induction 1 as [|x l Hx _ IH]; simpl; [reflexivity|]. rewrite Hx, IH. reflexivity.
Qed.

Lemma matchesQuery_object (m query : object) :
  exists b, matchesQuery (VObj m) query = Ok b.
Proof.
  unfold matchesQuery. induction (map_to_list query) as [|[k v] l (b & IH)].
  - exists true. reflexivity.
  - cbn [matches_entries get_prop rbind].
    destruct (negb _); [exists false; reflexivity | exists b; exact IH].
Qed.

(** [get] on a connected document-mode driver whose table has [_data]. *)
Lemma get_document_run (w : world) (query : object) (t : table) :
  pool (this w) <> None -> hybrid (this w) = false -> db w = Some t ->
  has_column t "_data" = true ->
  get query w =
    ((if bool_decide (map_to_list query = []) then Ok (documents t)
      else filterM (fun record => matchesQuery record query) (documents t)),
     World (this w) (db w) (log w ++ [SelectData]) (clock w) (ticks w)
       (random36 w) (draws w)).
Proof.
  intros Hc Hh Hdb Hd. unfold get. pass_guard Hc.
  unfold bind at 1. unfold get_this at 1. rewrite Hh.
  unfold bind, pool_query, lift, ret. rewrite Hdb. simpl. rewrite Hd. simpl.
  assert (E : (fun row : row => default VUndef (row !! "_data"))
                <$> ((fun r : row => ({[ "_data" := default VNull (r !! "_data") ]} : row))
                       <$> rows t) = documents t).
  { unfold documents. rewrite <- list_fmap_compose. apply list_fmap_ext.
    intros i r _. simpl. rewrite lookup_singleton_eq. reflexivity. }
  rewrite E. case_bool_decide; [reflexivity|].
  destruct (filterM _ (documents t)); reflexivity.
Qed.

(** X4: in document mode [get] returns the stored documents that match
    the criteria, in the order of the rows, and the empty criteria returns
    them all.  (For a non-empty criteria every stored document is taken to
    be an object, as is every document the driver itself has written.) *)
Theorem get_filters_documents (w : world) (query : object) (t : table) :
  pool (this w) <> None -> hybrid (this w) = false -> db w = Some t ->
  has_column t "_data" = true ->
  (query = ∅ -> returned (get query) w = Ok (documents t)) /\
  (Forall (fun d => exists m, d = VObj m) (documents t) ->
   returned (get query) w = Ok (List.filter (matching query) (documents t))).
Proof.
  intros Hc Hh Hdb Hd. unfold returned.
  rewrite (get_document_run w query t Hc Hh Hdb Hd). cbn [fst]. split.
  - intros ->. rewrite map_to_list_empty. reflexivity.
  - intros Hn. case_bool_decide as Hq.
    + rewrite filter_all; [reflexivity|].
      apply Forall_forall. intros d _. unfold matching, matchesQuery.
      rewrite Hq. reflexivity.
    + rewrite filterM_total; [reflexivity|].
      eapply Forall_impl; [exact Hn|]. intros d (m & ->).
      apply matchesQuery_object.
Qed.

Lemma get_filters_documents_witness :
  returned (get ∅) two_world = Ok (documents two_rows) /\
  returned (get {[ "nickname" := VStr "Bo" ]}) two_world
    = Ok (List.filter (matching {[ "nickname" := VStr "Bo" ]}) (documents two_rows)).
Proof.
  split.
  - apply (get_filters_documents two_world ∅ two_rows);
      [discriminate | reflexivity | reflexivity | vm_compute; reflexivity | reflexivity].
  - apply (get_filters_documents two_world {[ "nickname" := VStr "Bo" ]} two_rows);
      [discriminate | reflexivity | reflexivity | vm_compute; reflexivity |].
    repeat constructor; eexists; reflexivity.
Defined.

End Find.

(** ** The document-mode table stays well kept *)

Section Kept.

(** X5: insertion keeps a document-mode table well kept and adds the
    record at the end.  When [set] returns on a well-kept table, the table
    has one more row, it is still well kept (same columns, every [_data] an
    object carrying the [_id] of its row, no [_id] twice), and for a
    JSON-representable document the list of stored documents is the old
    list followed by the returned record. *)
Theorem set_keeps_table (w w' : world) (data r : object) (t : table) :
  hybrid (this w) = false -> db w = Some t -> well_kept t ->
  set data w = (Ok r, w') ->
  exists t',
    db w' = Some t' /\ columns t' = columns t /\ well_kept t' /\
    List.length (rows t') = S (List.length (rows t)) /\
    (json_representable (VObj data) ->
     documents t' = (documents t ++ [VObj r])%list).
Proof.
  intros Hh Hdb (K1 & K2 & K3 & K4) H.
  apply set_appends in H
    as (t0 & cols & vals & -> & Hi & Hdb0 & _ & Hdb' & Hcols & Hn & Hex).
  rewrite Hdb in Hdb0. injection Hdb0 as <-.
  cbv zeta in Hdb', Hex.
  destruct (insert_of_assigns w data cols vals Hi Hn) as (A1 & _ & _ & A4).
  destruct (insert_of_cols w data cols vals Hi) as (C1 & _ & _ & C4).
  rewrite forallb_forall in Hcols.
  set (row := new_row t (list_to_map (zip cols (cell <$> vals)))) in *.
  assert (Rid : row !! "_id" = Some (VStr (generated_id w)))
    by (apply new_row_assigned; auto).
  assert (Rdata : row !! "_data" = Some (VObj (omap to_json (stamped w data))))
    by (apply new_row_assigned; [auto | exact (A4 Hh)]).
  rewrite Rid in Hex. simpl in Hex.
  exists (Table (columns t) (rows t ++ [row])).
  split; [exact Hdb'|]. split; [reflexivity|]. split; [|split].
  - split; [exact K1|]. split; [exact K2|]. simpl. split.
    + apply Forall_app. split; [exact K3|]. constructor; [|constructor].
      exists (generated_id w), (omap to_json (stamped w data)).
      split; [exact Rid|]. split; [exact Rdata|].
      rewrite lookup_omap. destruct (stamped_fields w data) as (-> & _). reflexivity.
    + rewrite fmap_app. apply NoDup_app. split; [exact K4|]. split.
      * intros x Hx Hx'. simpl in Hx'. apply list_elem_of_singleton in Hx'. subst x.
        apply list_elem_of_fmap in Hx as (r0 & Hr0 & Hin). rewrite Rid in Hr0.
        exact (no_match_other_id _ _ _ Hex Hin (eq_sym Hr0)).
      * simpl. apply NoDup_singleton.
  - simpl. rewrite length_app. simpl. lia.
  - intros Hj. unfold documents. simpl. rewrite fmap_app. simpl. f_equal.
    unfold doc_of. rewrite Rdata. simpl.
    pose proof (to_json_stamped w data Hj) as E. simpl in E. injection E as E.
    rewrite E. reflexivity.
Qed.

Lemma set_keeps_table_witness :
  exists t',
    db (after (set {[ "nickname" := VStr "Cy" ]}) two_world) = Some t' /\
    columns t' = columns two_rows /\ well_kept t' /\
    List.length (rows t') = 3%nat.
Proof.
  destruct (set_keeps_table two_world
              (after (set {[ "nickname" := VStr "Cy" ]}) two_world)
              {[ "nickname" := VStr "Cy" ]}
              (stamped two_world {[ "nickname" := VStr "Cy" ]}) two_rows)
    as (t' & H1 & H2 & H3 & H4 & _).
  - reflexivity.
  - reflexivity.
  - split; [vm_compute; reflexivity|]. split; [vm_compute; reflexivity|]. split.
    + repeat constructor; eexists _, _; repeat split; reflexivity.
    + vm_compute. repeat constructor; rewrite ?elem_of_cons, ?elem_of_nil;
        intros H; repeat destruct H as [H|H]; try discriminate H; exact H.
  - apply returned_after. vm_compute. reflexivity.
  - exists t'. auto.
Defined.

End Kept.

(** ** Deleting records in document mode *)

Section Delete.

Lemma NoDup_fmap_eq {A B} (f : A -> B) (l : list A) (x y : A) :
  NoDup (f <$> l) -> x ∈ l -> y ∈ l -> f x = f y -> x = y.
Proof.
  induction l as [|a l IH]; intros Hn Hx Hy E; [apply elem_of_nil in Hx; destruct Hx|].
  rewrite fmap_cons in Hn. apply NoDup_cons in Hn as [Ha Hn].
  apply elem_of_cons in Hx as [->|Hx]; apply elem_of_cons in Hy as [->|Hy]; auto.
  - exfalso. apply Ha. rewrite E. apply list_elem_of_fmap. eauto.
  - exfalso. apply Ha. rewrite <- E. apply list_elem_of_fmap. eauto.
Qed.

Lemma filter_filter {A} (f g : A -> bool) (l : list A) :
  List.filter g (List.filter f l) = List.filter (fun x => f x && g x) l.
Proof.
  induction l as [|x l IH]; simpl; [reflexivity|].
  destruct (f x); simpl; [destruct (g x)|]; rewrite IH; reflexivity.
Qed.

Lemma filter_ext_in_list {A} (f g : A -> bool) (l : list A) :
  (forall x, x ∈ l -> f x = g x) -> List.filter f l = List.filter g l.
Proof.
  intros H. apply List.filter_ext_in. intros x Hx. apply H. apply list_elem_of_In. exact Hx.
Qed.

Lemma filter_complement (f : value -> bool) (l : list row) :
  List.filter f (doc_of <$> List.filter (fun r => negb (f (doc_of r))) l) = [].
Proof.
  induction l as [|r l IH]; simpl; [reflexivity|].
  destruct (f (doc_of r)) eqn:Hm; simpl; [exact IH|]. rewrite Hm. exact IH.
Qed.

Lemma delete_loop_run (records : list value) :
  forall (c : Z) (w : world) (t : table),
    db w = Some t -> has_column t "_id" = true ->
    Forall (fun rec => exists id, get_prop rec "_id" = Ok (VStr id)) records ->
    exists w',
      delete_loop records c w = (Ok (c + Z.of_nat (List.length records)), w') /\
      this w' = this w /\
      db w' = Some (Table (columns t)
                      (List.filter (fun r => negb (hit records r)) (rows t))).
Proof.
  induction records as [|rec rest IH]; intros c w t Hdb Hid Hrecs.
  - exists w. cbn [delete_loop]. unfold ret. split; [f_equal; f_equal; simpl; lia|].
    split; [reflexivity|]. rewrite Hdb. f_equal. destruct t. simpl. f_equal.
    symmetry. apply filter_all. apply Forall_forall. reflexivity.
  - apply Forall_cons in Hrecs as [(id & Hrec) Hrecs].
    cbn [delete_loop]. unfold bind at 1. unfold lift at 1. rewrite Hrec.
    unfold bind at 1. unfold pool_query at 1. rewrite Hdb.
    cbn [exec exec_on]. rewrite Hid.
    set (w1 := World _ _ _ _ _ _ _).
    pose (t1 := Table (columns t)
                  (List.filter (fun r => negb (id_matches (VStr id) r)) (rows t))).
    destruct (IH (c + 1) w1 t1 eq_refl Hid Hrecs) as (w' & Hrun & Hth & Hdb').
    exists w'. rewrite Hrun. split; [f_equal; f_equal; cbn [List.length]; lia|].
    split; [exact Hth|]. rewrite Hdb'. unfold t1. cbn [columns rows].
    f_equal. f_equal. rewrite filter_filter. apply List.filter_ext.
    intros r. unfold hit. cbn [existsb]. rewrite Hrec, negb_orb. reflexivity.
Qed.

Lemma row_kept_doc (r : row) :
  row_kept r -> exists id m, r !! "_id" = Some (VStr id) /\ doc_of r = VObj m /\
                             get_prop (doc_of r) "_id" = Ok (VStr id).
Proof.
  intros (id & m & H1 & H2 & H3). exists id, m. unfold doc_of. rewrite H2. simpl.
  rewrite H3. auto.
Qed.

(** On a well-kept table the rows hit are the rows whose document
    matches. *)
Lemma hit_matching (t : table) (query : object) (r : row) :
  well_kept t -> r ∈ rows t ->
  hit (List.filter (matching query) (documents t)) r = matching query (doc_of r).
Proof.
  intros (_ & _ & K3 & K4) Hr. rewrite Forall_forall in K3.
  destruct (row_kept_doc r (K3 r Hr)) as (id & m & Hid & Hdoc & Hget).
  apply eq_true_iff_eq. unfold hit. rewrite existsb_exists. split.
  - intros (rec & Hin & Hm). apply filter_In in Hin as [Hin Hmatch].
    apply list_elem_of_In in Hin. unfold documents in Hin.
    apply list_elem_of_fmap in Hin as (r2 & -> & Hr2).
    destruct (row_kept_doc r2 (K3 r2 Hr2)) as (id2 & m2 & Hid2 & Hdoc2 & Hget2).
    rewrite Hget2 in Hm. unfold id_matches in Hm. rewrite Hid in Hm. simpl in Hm.
    apply String.eqb_eq in Hm. subst id2.
    assert (r = r2) as <-; [|exact Hmatch].
    apply (NoDup_fmap_eq (fun r : row => r !! "_id") (rows t)); auto. congruence.
  - intros Hmatch. exists (doc_of r). split.
    + apply filter_In. split; [|exact Hmatch]. apply list_elem_of_In.
      unfold documents. apply list_elem_of_fmap. eauto.
    + rewrite Hget. unfold id_matches. rewrite Hid. simpl. apply String.eqb_refl.
Qed.

Lemma well_kept_objects (t : table) :
  well_kept t -> Forall (fun d => exists m, d = VObj m) (documents t).
Proof.
  intros (_ & _ & K3 & _). unfold documents. apply Forall_fmap.
  eapply Forall_impl; [exact K3|]. intros r Hr.
  destruct (row_kept_doc r Hr) as (id & m & _ & Hdoc & _). eauto.
Qed.

Lemma well_kept_filter (t : table) (f : row -> bool) :
  well_kept t -> well_kept (Table (columns t) (List.filter f (rows t))).
Proof.
  intros (K1 & K2 & K3 & K4). split; [exact K1|]. split; [exact K2|]. simpl. split.
  - apply Forall_forall. intros r Hr. apply list_elem_of_In, filter_In in Hr as [Hr _].
    rewrite Forall_forall in K3. apply K3. apply list_elem_of_In. exact Hr.
  - clear K3. induction (rows t) as [|r l IH]; simpl; [constructor|].
    rewrite fmap_cons in K4. apply NoDup_cons in K4 as [Hr Hl].
    destruct (f r); [|auto]. rewrite fmap_cons. apply NoDup_cons. split; [|auto].
    intros Hin. apply Hr. apply list_elem_of_fmap in Hin as (r2 & E & Hin).
    apply list_elem_of_fmap. exists r2. split; [exact E|].
    apply list_elem_of_In, filter_In in Hin as [Hin _]. apply list_elem_of_In. exact Hin.
Qed.

(** X6: on a well-kept document-mode table [delete] removes exactly the
    records that match.  It returns the number of stored documents that
    match the criteria; afterwards the table holds, in their old order, the
    rows whose document does not match, and it is still well kept; a [get]
    with the same criteria then returns the empty list. *)
Theorem delete_removes_matches (w : world) (query : object) (t : table) :
  pool (this w) <> None -> hybrid (this w) = false -> db w = Some t ->
  well_kept t ->
  let t' := Table (columns t)
              (List.filter (fun r => negb (matching query (doc_of r))) (rows t)) in
  returned (delete query) w
    = Ok (Z.of_nat (List.length (List.filter (matching query) (documents t)))) /\
  db (after (delete query) w) = Some t' /\
  well_kept t' /\
  returned (get query) (after (delete query) w) = Ok [].
Proof.
  intros Hc Hh Hdb K t'.
  pose proof K as (K1 & K2 & K3 & K4).
  pose proof (well_kept_objects t K) as Hobj.
  assert (Hget : get query w =
            (Ok (List.filter (matching query) (documents t)),
             World (this w) (db w) (log w ++ [SelectData]) (clock w) (ticks w)
               (random36 w) (draws w))).
  { rewrite (get_document_run w query t Hc Hh Hdb K2). f_equal.
    case_bool_decide as Hq.
    - rewrite filter_all; [reflexivity|]. apply Forall_forall. intros d _.
      unfold matching, matchesQuery. rewrite Hq. reflexivity.
    - apply filterM_total. eapply Forall_impl; [exact Hobj|].
      intros d (m & ->). apply matchesQuery_object. }
  set (records := List.filter (matching query) (documents t)) in *.
  set (w1 := World _ _ _ _ _ _ _) in Hget.
  assert (Hrecs : Forall (fun rec => exists id, get_prop rec "_id" = Ok (VStr id)) records).
  { apply Forall_forall. intros rec Hin. apply list_elem_of_In, filter_In in Hin as [Hin _].
    apply list_elem_of_In in Hin. unfold documents in Hin.
    apply list_elem_of_fmap in Hin as (r & -> & Hr). rewrite Forall_forall in K3.
    destruct (row_kept_doc r (K3 r Hr)) as (id & m & _ & _ & G). eauto. }
  destruct (delete_loop_run records 0 w1 t Hdb K1 Hrecs) as (w' & Hrun & Hth & Hdb').
  assert (Hdel : delete query w = (Ok (Z.of_nat (List.length records)), w')).
  { unfold delete. pass_guard Hc. unfold bind. rewrite Hget, Hrun. reflexivity. }
  assert (Ht' : db w' = Some t').
  { rewrite Hdb'. unfold t'. f_equal. f_equal. apply filter_ext_in_list.
    intros r Hr. f_equal. apply hit_matching; assumption. }
  unfold returned, after. rewrite Hdel. cbn [fst snd].
  split; [reflexivity|]. split; [exact Ht'|].
  split; [apply well_kept_filter; exact K|].
  assert (K' : well_kept t') by (apply well_kept_filter; exact K).
  assert (Hc' : pool (this w') <> None) by (rewrite Hth; exact Hc).
  assert (Hh' : hybrid (this w') = false) by (rewrite Hth; exact Hh).
  rewrite (get_document_run w' query t' Hc' Hh' Ht' K2). cbn [fst].
  assert (E : List.filter (matching query) (documents t') = [])
    by apply filter_complement.
  case_bool_decide as Hq.
  - (* the empty criteria matches every document, so none is left *)
    f_equal. rewrite <- E. symmetry. apply filter_all. apply Forall_forall.
    intros d _. unfold matching, matchesQuery. rewrite Hq. reflexivity.
  - rewrite filterM_total.
    + change (Ok (List.filter (matching query) (documents t')) = Ok []).
      rewrite E. reflexivity.
    + eapply Forall_impl; [exact (well_kept_objects t' K')|].
      intros d (m & ->). apply matchesQuery_object.
Qed.

Lemma delete_removes_matches_witness :
  returned (delete {[ "nickname" := VStr "Bo" ]}) two_world = Ok 1 /\
  db (after (delete {[ "nickname" := VStr "Bo" ]}) two_world)
    = Some (Table document_columns [al_row]).
Proof.
  destruct (delete_removes_matches two_world {[ "nickname" := VStr "Bo" ]} two_rows)
    as (H1 & H2 & _).
  - discriminate.
  - reflexivity.
  - reflexivity.
  - split; [vm_compute; reflexivity|]. split; [vm_compute; reflexivity|]. split.
    + repeat constructor; eexists _, _; repeat split; reflexivity.
    + vm_compute. repeat constructor; rewrite ?elem_of_cons, ?elem_of_nil;
        intros H; repeat destruct H as [H|H]; try discriminate H; exact H.
  - split; [rewrite H1; vm_compute; reflexivity|].
    rewrite H2. vm_compute. reflexivity.
Defined.

End Delete.

(** ** Updating records in document mode *)

Section UpdateDocuments.

















End UpdateDocuments.

(** ** Splitting, then merging *)

Section RoundTrip.

Lemma schema_definition (th : driver) (d : definition) :
  schema th = Some (Plain d) \/ schema th = Some (WithGetDefinition d) ->
  exists s, schema th = Some s /\ getDefinition s = d.
Proof. intros [H|H]; eexists; (split; [exact H | reflexivity]). Qed.

(** X8: merging undoes splitting, except for [__proto__].  Split a
    document under a schema that does not name [_extras]; take any row that
    holds the schema part in its columns and the extra part as its blob
    (whatever else it holds).  Then [mergeData] returns, and every field of
    the document whose key is [in] the definition or is not reserved is in
    the merged document with the value it had, provided the key is not
    [__proto__].  An own [__proto__] field of the document is in neither
    part: the merged document has none unless the row itself has such a
    column. *)
Theorem split_then_merge (th : driver) (d : definition) (data row : object) :
  schema th = Some (Plain d) \/ schema th = Some (WithGetDefinition d) ->
  d !! "_extras" = None ->
  (splitData th data).1 ⊆ row ->
  row !! "_extras" = Some (VObj (splitData th data).2) ->
  exists doc,
    mergeData row = Ok doc /\
    (forall key v, data !! key = Some v -> key <> "__proto__" ->
       has_property d key = true \/ key ∉ reserved ->
       doc !! key = Some v) /\
    (row !! "__proto__" = None -> doc !! "__proto__" = None).
Proof.
  intros Hsd He Hsub Hblob.
  destruct (schema_definition th d Hsd) as (s & Hs & <-).
  exists ((splitData th data).2 ∪ base.delete "_extras" row). split; [|split].
  - unfold mergeData, spread2. rewrite Hblob. reflexivity.
  - intros key v Hd Hp Hk.
    destruct (splitData_lookup th s data key Hs) as [L1 L2].
    destruct (has_property (getDefinition s) key) eqn:Hn.
    + cbn [orb andb] in L1, L2.
      rewrite lookup_union_r by exact L2.
      assert (key <> "_extras").
      { intros ->. unfold has_property in Hn. rewrite He in Hn.
        vm_compute in Hn. discriminate. }
      rewrite lookup_delete_ne by congruence.
      destruct (String.eqb_spec key "__proto__") as [E|_]; [contradiction|].
      cbn [negb] in L1. rewrite Hd in L1. exact (lookup_weaken _ _ _ _ L1 Hsub).
    + destruct Hk as [Hk|Hk]; [discriminate|].
      rewrite bool_decide_false in L2 by exact Hk. cbn [orb] in L2.
      apply lookup_union_Some_l. rewrite L2. exact Hd.
  - intros Hrow.
    destruct (splitData_lookup th s data "__proto__" Hs) as [_ L2].
    rewrite has_property_proto in L2. cbn [orb] in L2.
    rewrite lookup_union_r by exact L2.
    rewrite lookup_delete_ne by discriminate. exact Hrow.
Qed.

(** The schema [{age, email}]: [age] comes back from its column,
    [nickname] from the blob, and the document's own [__proto__] is gone. *)
Lemma split_then_merge_witness :
  let th := Driver None "users" (Some sample_schema) sql in
  let data : object :=
    {[ "age" := int 30; "nickname" := VStr "Al"; "_id" := VStr "1_x";
       "__proto__" := VStr "p" ]} in
  let row : object :=
    {[ "_id" := VStr "1_x"; "age" := int 30; "email" := VNull;
       "_extras" := VObj {[ "nickname" := VStr "Al" ]} ]} in
  exists doc, mergeData row = Ok doc /\
              doc !! "age" = Some (int 30) /\ doc !! "nickname" = Some (VStr "Al") /\
              doc !! "__proto__" = None.
Proof.
  intros th data row.
  destruct (split_then_merge th
              {[ "age" := TagString "number:integer"; "email" := TagString "string" ]}
              data row) as (doc & H1 & H2 & H3).
  - left. reflexivity.
  - reflexivity.
  - replace (splitData th data).1 with ({[ "age" := int 30 ]} : object)
      by (vm_compute; reflexivity).
    apply map_subseteq_spec. intros k v Hk.
    apply lookup_singleton_Some in Hk as [<- <-]. reflexivity.
  - vm_compute. reflexivity.
  - exists doc. split; [exact H1|]. split; [|split].
    + apply H2; [reflexivity | discriminate |]. left. vm_compute. reflexivity.
    + apply H2; [reflexivity | discriminate |]. right. unfold reserved.
      rewrite !elem_of_cons, elem_of_nil. intros [|[|[|[]]]]; discriminate.
    + apply H3. reflexivity.
Defined.

End RoundTrip.

(** ** Hybrid mode: the extras blob *)

Section HybridExtras.

Lemma insert_of_extras (w : world) (data : object) cols vals :
  hybrid (this w) = true ->
  insert_of w data = InsertInto cols vals -> NoDup cols ->
  In "_extras" cols /\
  (list_to_map (zip cols (cell <$> vals)) : object) !! "_extras"
    = Some (VObj (omap to_json (splitData (this w) (stamped w data)).2)).
Proof.
  intros Hh. unfold insert_of. rewrite Hh. intros [= <- <-] Hn. split.
  - simpl. right. apply in_or_app. right. simpl. auto.
  - simpl. apply NoDup_cons in Hn as [_ Hn]. apply NoDup_app in Hn as (_ & Hdis & _).
    set (sd := (splitData (this w) (stamped w data)).1) in *.
    rewrite !fmap_app.
    assert (Hc : "_extras" ∉ (map_to_list sd).*1).
    { intros Hin. apply (Hdis _ Hin). rewrite !elem_of_cons. auto. }
    rewrite lookup_insert_ne by discriminate.
    rewrite assigned_tail; [reflexivity | by rewrite !length_fmap | exact Hc].
Qed.

(** X9: in hybrid mode a field that is not [in] the definition comes
    back from the extras blob.  When [set] returns, reading by the generated
    id returns a document that has that id and, for every field of the
    inserted document whose key is neither named in the schema, nor a name
    of [Object.prototype], nor reserved, and whose value is
    JSON-representable, the value that was inserted. *)
Theorem hybrid_extras_come_back (w w' : world) (data r : object) (d : definition) :
  hybrid (this w) = true ->
  schema (this w) = Some (Plain d) \/ schema (this w) = Some (WithGetDefinition d) ->
  set data w = (Ok r, w') ->
  exists doc,
    returned (getOne {[ "_id" := VStr (generated_id w) ]}) w' = Ok (VObj doc) /\
    doc !! "_id" = Some (VStr (generated_id w)) /\
    forall key v, data !! key = Some v ->
      d !! key = None -> key ∉ Object_prototype -> key ∉ reserved ->
      json_representable v -> doc !! key = Some v.
Proof.
  intros Hh Hsd H. destruct (schema_definition (this w) d Hsd) as (s & Hs & <-).
  pose proof (set_returns_connected _ _ _ _ H) as Hc.
  apply set_appends in H
    as (t & cols & vals & -> & Hi & Hdb & Hth & Hdb' & Hcols & Hn & Hex).
  cbv zeta in Hdb', Hex.
  destruct (insert_of_assigns w data cols vals Hi Hn) as (A1 & _).
  destruct (insert_of_cols w data cols vals Hi) as (C1 & _).
  destruct (insert_of_extras w data cols vals Hh Hi Hn) as (C2 & A2).
  rewrite forallb_forall in Hcols.
  set (row := new_row t (list_to_map (zip cols (cell <$> vals)))) in *.
  set (ed := (splitData (this w) (stamped w data)).2) in *.
  assert (Rid : row !! "_id" = Some (VStr (generated_id w)))
    by (apply new_row_assigned; auto).
  assert (Rex : row !! "_extras" = Some (VObj (omap to_json ed)))
    by (apply new_row_assigned; auto).
  rewrite Rid in Hex. simpl in Hex.
  exists (omap to_json ed ∪ base.delete "_extras" row).
  assert (Hed : forall key, ed !! key =
            if has_property (getDefinition s) key || bool_decide (key ∈ reserved)
            then None else stamped w data !! key)
    by (intros key; apply (splitData_lookup (this w) s (stamped w data) key Hs)).
  split; [|split].
  - unfold returned, getOne. unfold bind at 1.
    rewrite ensureConnected_passes by (rewrite Hth; exact Hc).
    rewrite lookup_singleton_eq. simpl.
    destruct (String.eqb_spec (generated_id w) EmptyString) as [E|_];
      [exfalso; exact (generated_id_nonempty w E)|]. simpl.
    unfold bind, get_this, pool_query. simpl. rewrite Hth, Hh, Hdb'. simpl.
    assert (Hid : has_column (Table (columns t) (rows t ++ [row])) "_id" = true)
      by (apply (Hcols "_id"); exact C1).
    rewrite Hid. simpl.
    rewrite List.filter_app, (filter_no_match _ _ Hex). simpl.
    unfold id_matches at 1. rewrite Rid. simpl. rewrite String.eqb_refl. simpl.
    unfold lift, mergeData, spread2. rewrite Rex. reflexivity.
  - rewrite lookup_union_r.
    + rewrite lookup_delete_ne by discriminate. exact Rid.
    + rewrite lookup_omap, Hed.
      rewrite (bool_decide_true ("_id" ∈ reserved)) by (apply elem_of_cons; auto).
      rewrite orb_true_r. reflexivity.
  - intros key v Hd Hdef Hinh Hk Hj. apply lookup_union_Some_l.
    rewrite lookup_omap, Hed. unfold has_property.
    rewrite bool_decide_false by (rewrite Hdef; apply is_Some_None).
    rewrite bool_decide_false by exact Hinh.
    rewrite bool_decide_false by exact Hk. simpl.
    unfold stamped, reserved in *. rewrite !elem_of_cons, elem_of_nil in Hk.
    rewrite !lookup_insert_ne by (intros <-; tauto). rewrite Hd. exact Hj.
Qed.

Lemma hybrid_extras_come_back_witness :
  let data : object := {[ "nickname" := VStr "Al"; "tags" := VArr [VStr "a"; int 1] ]} in
  exists doc,
    returned (getOne {[ "_id" := VStr (generated_id hybrid_world) ]})
      (after (set data) hybrid_world) = Ok (VObj doc) /\
    doc !! "tags" = Some (VArr [VStr "a"; int 1]).
Proof.
  intros data.
  destruct (hybrid_extras_come_back hybrid_world (after (set data) hybrid_world)
              data (stamped hybrid_world data)
              {[ "age" := TagString "number:integer"; "email" := TagString "string" ]})
    as (doc & H1 & _ & H2).
  - vm_compute. reflexivity.
  - left. vm_compute. reflexivity.
  - apply returned_after. vm_compute. reflexivity.
  - exists doc. split; [exact H1|]. apply H2.
    + reflexivity.
    + vm_compute. reflexivity.
    + intros H. apply (bool_decide_pack _) in H. vm_compute in H. exact H.
    + unfold reserved. rewrite !elem_of_cons, elem_of_nil.
      intros [|[|[|[]]]]; discriminate.
    + reflexivity.
Defined.

End HybridExtras.

(** ** Hybrid mode: one malformed blob *)

Section BadBlob.

Lemma JSON_parse_error (text : string) (e : error) :
  JSON_parse text = Throw e -> e = SyntaxError.
Proof.
  unfold JSON_parse. destruct (parse_value _ text) as [[v r]|].
  - destruct (String.eqb _ _); [discriminate|]. intros [= <-]. reflexivity.
  - intros [= <-]. reflexivity.
Qed.

Lemma mergeData_error (row : object) (e : error) :
  mergeData row = Throw e -> e = SyntaxError.
Proof.
  unfold mergeData. destruct (default VUndef (row !! "_extras")); simpl; try discriminate.
  destruct (JSON_parse s) eqn:E; simpl; [discriminate|].
  intros [= <-]. exact (JSON_parse_error _ _ E).
Qed.

Lemma mapM_throws {A B} (f : A -> result B) (l : list A) (x : A) (e0 : error) :
  (forall y e, f y = Throw e -> e = e0) -> x ∈ l -> f x = Throw e0 ->
  mapM f l = Throw e0.
Proof.
  intros Hall Hin Hx. induction l as [|y l IH]; [apply elem_of_nil in Hin; destruct Hin|].
  simpl. destruct (f y) as [b|e] eqn:Hy; simpl.
  - apply elem_of_cons in Hin as [->|Hin]; [congruence|]. rewrite (IH Hin). reflexivity.
  - rewrite (Hall _ _ Hy). reflexivity.
Qed.

(** X10: in hybrid mode one row with an unparseable text in [_extras]
    breaks every scan.  [get] merges every row before it filters, so with
    such a row in the table [get] throws the SyntaxError for every criteria,
    also for one the row would not match, and so do [update] and [delete],
    which write nothing. *)
Theorem hybrid_scan_breaks (w : world) (query data : object) (t : table)
    (r : row) (text : string) :
  pool (this w) <> None -> hybrid (this w) = true -> db w = Some t ->
  r ∈ rows t -> r !! "_extras" = Some (VStr text) ->
  JSON_parse text = Throw SyntaxError ->
  returned (get query) w = Throw SyntaxError /\
  returned (update query data) w = Throw SyntaxError /\
  returned (delete query) w = Throw SyntaxError /\
  db (after (update query data) w) = Some t /\
  db (after (delete query) w) = Some t.
Proof.
  intros Hc Hh Hdb Hr Hblob Hparse.
  set (merge := fun row : row => rbind (mergeData row) (fun d => Ok (VObj d))).
  assert (Hm : mapM merge (rows t) = Throw SyntaxError).
  { apply (mapM_throws merge (rows t) r).
    - intros y e. unfold merge. destruct (mergeData y) eqn:E; simpl; [discriminate|].
      intros [= <-]. exact (mergeData_error _ _ E).
    - exact Hr.
    - unfold merge, mergeData. rewrite Hblob. simpl. rewrite Hparse. reflexivity. }
  assert (Hget : get query w =
            (Throw SyntaxError,
             World (this w) (db w) (log w ++ [SelectAll]) (clock w) (ticks w)
               (random36 w) (draws w))).
  { unfold get. pass_guard Hc. unfold bind at 1. unfold get_this at 1. rewrite Hh.
    unfold bind, pool_query, lift. rewrite Hdb. simpl. fold merge. rewrite Hm.
    reflexivity. }
  unfold returned, after, update, delete.
  split; [rewrite Hget; reflexivity|].
  split; [pass_guard Hc; unfold bind; rewrite Hget; reflexivity|].
  split; [pass_guard Hc; unfold bind; rewrite Hget; reflexivity|].
  split; pass_guard Hc; unfold bind; rewrite Hget; exact Hdb.
Qed.

Lemma hybrid_scan_breaks_witness :
  let bad : row := {[ "_id" := VStr "9_z"; "_extras" := VStr "{" ]} in
  let w := World (Driver (Some mkPool) "users" (Some sample_schema) sql)
             (Some (Table [id_column; Column "_extras" "JSONB" (VObj ∅)] [bad]))
             [] sample_clock 0 sample_random 0 in
  returned (get {[ "nickname" := VStr "Al" ]}) w = Throw SyntaxError.
Proof.
  intros bad w.
  apply (hybrid_scan_breaks w {[ "nickname" := VStr "Al" ]} ∅
           (Table [id_column; Column "_extras" "JSONB" (VObj ∅)] [bad]) bad "{").
  - discriminate.
  - reflexivity.
  - reflexivity.
  - apply elem_of_cons. left. reflexivity.
  - reflexivity.
  - reflexivity.
Defined.

End BadBlob.

(** ** Connecting, disconnecting, clearing *)

Section Lifecycle.

Lemma document_table_kept : well_kept (Table document_columns []).
Proof.
  split; [vm_compute; reflexivity|]. split; [vm_compute; reflexivity|].
  split; constructor.
Qed.

Lemma bind_keeps_this {A B} (m : M A) (k : A -> M B) :
  (forall w, this (m w).2 = this w) -> (forall a w, this (k a w).2 = this w) ->
  forall w, this (bind m k w).2 = this w.
Proof.
  intros Hm Hk w. unfold bind. specialize (Hm w).
  destruct (m w) as [[a|e] w1]; simpl in *; [|exact Hm].
  rewrite Hk. exact Hm.
Qed.

Lemma pool_query_keeps_this (s : stmt) (w : world) : this (pool_query s w).2 = this w.
Proof. unfold pool_query. destruct (exec s (db w)) as [[rs d]|e]; reflexivity. Qed.

Lemma connect_this (w : world) :
  this (after connect w) =
  Driver (Some mkPool) (tableName (this w)) (schema (this w)) (dbType (this w)).
Proof.
  unfold after, connect. unfold bind at 1. unfold get_this at 1.
  unfold bind at 1. unfold set_this at 1.
  repeat (rewrite bind_keeps_this;
          [|intros; apply pool_query_keeps_this|intros ? ?]); reflexivity.
Qed.

Lemma exec_create_fresh :
  exec (CreateTable document_columns) None = Ok ([], Some (Table document_columns [])).
Proof. vm_compute. reflexivity. Qed.

Lemma exec_index (name col : string) (t : table) :
  has_column t col = true -> exec (CreateIndex name col) (Some t) = Ok ([], Some t).
Proof. intros H. cbn [exec exec_on]. rewrite H. reflexivity. Qed.

(** X11: [connect] marks the driver connected before it sends anything, so
    in either mode the pool is set afterwards whether the statements succeed
    or not, and the rest of the driver object is unchanged.  In document
    mode, with no table yet it creates the four-column table, empty and well
    kept; with a table already there (having the two timestamp columns its
    indexes are on) it returns and leaves every row in place. *)
Theorem connect_document_mode (w : world) :
  let w' := after connect w in
  (pool (this w') = Some mkPool /\ tableName (this w') = tableName (this w) /\
   schema (this w') = schema (this w) /\ dbType (this w') = dbType (this w)) /\
  (hybrid (this w) = false ->
   (db w = None ->
    returned connect w = Ok tt /\ db w' = Some (Table document_columns []) /\
    well_kept (Table document_columns [])) /\
   (forall t, db w = Some t -> has_column t "_createdAt" = true ->
      has_column t "_updatedAt" = true ->
      returned connect w = Ok tt /\ db w' = Some t)).
Proof.
  intros w'. split; [unfold w'; rewrite connect_this; repeat split|].
  intros Hh.
  assert (Hrun : connect w =
            (pool_query (CreateTable document_columns);;;
             pool_query (CreateIndex ("idx_" ++ tableName (this w) ++ "_createdAt")
                           "_createdAt");;;
             pool_query (CreateIndex ("idx_" ++ tableName (this w) ++ "_updatedAt")
                           "_updatedAt");;;
             ret tt)
              (World (Driver (Some mkPool) (tableName (this w)) (schema (this w))
                        (dbType (this w)))
                 (db w) (log w) (clock w) (ticks w) (random36 w) (draws w))).
  { unfold connect. unfold bind at 1. unfold get_this at 1.
    unfold bind at 1. unfold set_this at 1. rewrite Hh.
    destruct (schema (this w)); reflexivity. }
  unfold w', after, returned. rewrite Hrun. clear Hrun.
  unfold bind, pool_query, ret. cbn [db this log clock ticks random36 draws].
  split.
  - intros Hdb. rewrite Hdb, exec_create_fresh.
    cbn [db]. rewrite exec_index by reflexivity.
    cbn [db]. rewrite exec_index by reflexivity.
    split; [|split; [|apply document_table_kept]]; reflexivity.
  - intros t Hdb Hca Hua. rewrite Hdb.
    change (exec (CreateTable document_columns) (Some t)) with (Ok ([] : list row, Some t)).
    cbn [db]. rewrite exec_index by assumption.
    cbn [db]. rewrite exec_index by assumption. split; reflexivity.
Qed.

Lemma connect_document_mode_witness :
  returned connect (boot (new_driver "users")) = Ok tt /\
  db (after connect (boot (new_driver "users"))) = Some (Table document_columns []) /\
  returned connect two_world = Ok tt /\ db (after connect two_world) = Some two_rows.
Proof.
  destruct (connect_document_mode (boot (new_driver "users"))) as (_ & H0).
  destruct (H0 eq_refl) as (H1 & _).
  destruct (connect_document_mode two_world) as (_ & H3).
  destruct (H3 eq_refl) as (_ & H2).
  destruct (H1 eq_refl) as (A & B & _).
  destruct (H2 two_rows eq_refl) as (C & D); [vm_compute; reflexivity ..|].
  auto.
Defined.

(** X12: [disconnect] only forgets the pool.  It returns, sends nothing,
    leaves the table as it is, and afterwards every document operation
    throws the not-connected error; a [connect] after it finds the rows
    where they were (document mode, a table with the timestamp columns). *)
Theorem disconnect_blocks (w : world) (query data : object) :
  let w' := after disconnect w in
  returned disconnect w = Ok tt /\ db w' = db w /\ log w' = log w /\
  pool (this w') = None /\
  returned (set data) w' = Throw NotConnected /\
  returned (get query) w' = Throw NotConnected /\
  returned (getOne query) w' = Throw NotConnected /\
  returned (update query data) w' = Throw NotConnected /\
  returned (delete query) w' = Throw NotConnected /\
  returned (exists_ query) w' = Throw NotConnected /\
  returned (count query) w' = Throw NotConnected.
Proof.
  intros w'.
  assert (H : returned disconnect w = Ok tt /\ db w' = db w /\ log w' = log w /\
              pool (this w') = None).
  { unfold w', returned, after, disconnect, bind, get_this, set_this, ret. cbn [fst snd].
    destruct (pool (this w)) eqn:Hp; cbn [fst snd db log this pool]; auto. }
  destruct H as (H1 & H2 & H3 & Hp).
  split; [exact H1|]. split; [exact H2|]. split; [exact H3|]. split; [exact Hp|].
  unfold returned, set, get, getOne, update, delete, exists_, count.
  repeat split; fail_guard Hp; reflexivity.
Qed.

(** X13: [clear] empties the table and keeps its columns: on a connected
    driver with a table it returns, no row is left, and [count] with the
    empty criteria then returns 0. *)
Theorem clear_empties (w : world) (t : table) :
  pool (this w) <> None -> db w = Some t ->
  returned clear w = Ok tt /\
  db (after clear w) = Some (Table (columns t) []) /\
  returned (count ∅) (after clear w) = Ok 0.
Proof.
  intros Hc Hdb.
  assert (H : clear w = (Ok tt, World (this w) (Some (Table (columns t) []))
                                  (log w ++ [DeleteAll]) (clock w) (ticks w)
                                  (random36 w) (draws w))).
  { unfold clear. pass_guard Hc. unfold bind, pool_query, ret. rewrite Hdb. reflexivity. }
  unfold returned, after. rewrite H. cbn [fst snd db].
  split; [reflexivity|]. split; [reflexivity|].
  unfold count. unfold bind at 1. rewrite ensureConnected_passes by exact Hc.
  rewrite map_to_list_empty. rewrite bool_decide_true by reflexivity.
  unfold bind, pool_query, ret. cbn [db fst snd exec exec_on rows List.length].
  reflexivity.
Qed.

Lemma clear_empties_witness :
  returned clear two_world = Ok tt /\
  db (after clear two_world) = Some (Table document_columns []) /\
  returned (count ∅) (after clear two_world) = Ok 0.
Proof. apply (clear_empties two_world two_rows); [discriminate | reflexivity]. Defined.

End Lifecycle.

(** ** Generated identifiers *)

Section Identifiers.

Lemma uint_text_no_underscore (d : Decimal.uint) (c : ascii) :
  In c (list_ascii_of_string (NilEmpty.string_of_uint d)) -> c <> "_"%char.
Proof.
  induction d; cbn [NilEmpty.string_of_uint list_ascii_of_string In];
    [tauto | intros [<-|H]; [discriminate | exact (IHd H)] ..].
Qed.

Lemma Z_text_no_underscore (z : Z) (c : ascii) :
  In c (list_ascii_of_string (Z_text z)) -> c <> "_"%char.
Proof.
  unfold Z_text. destruct z as [|p|p]; cbn [Z.to_int NilZero.string_of_int].
  - cbn. intros [<-|[]]. discriminate.
  - rewrite NilZero_NilEmpty. apply uint_text_no_underscore.
  - rewrite NilZero_NilEmpty. cbn [list_ascii_of_string In].
    intros [<-|H]; [discriminate | exact (uint_text_no_underscore _ _ H)].
Qed.

Lemma split_at_underscore (a c b d : string) :
  (forall x, In x (list_ascii_of_string a) -> x <> "_"%char) ->
  (forall x, In x (list_ascii_of_string c) -> x <> "_"%char) ->
  a ++ "_" ++ b = c ++ "_" ++ d -> a = c /\ b = d.
Proof.
  revert c. induction a as [|x a IH]; intros [|y c] Ha Hc H.
  - injection H as H. auto.
  - injection H as Hy _. exfalso. apply (Hc y); [left; reflexivity | congruence].
  - injection H as Hx _. exfalso. apply (Ha x); [left; reflexivity | congruence].
  - injection H as Hxy H. subst y.
    destruct (IH c) as [-> ->]; [intros z Hz; apply Ha; right; exact Hz
                                |intros z Hz; apply Hc; right; exact Hz
                                |exact H|auto].
Qed.

(** X14: [generateId] reads the clock once and the random source once and
    nothing else: the table, the statement log and the driver are as before.
    Two generated ids are equal exactly when the clock readings are equal
    and the random suffixes (characters 2 to 14 of the base-36 text) are
    equal; in particular ids made at different clock readings differ. *)
Theorem generateId_equal_iff (w1 w2 : world) :
  (returned generateId w1 = returned generateId w2 <->
   clock w1 (ticks w1) = clock w2 (ticks w2) /\
   substring 2 15 (random36 w1 (draws w1)) = substring 2 15 (random36 w2 (draws w2))) /\
  ticks (after generateId w1) = S (ticks w1) /\
  draws (after generateId w1) = S (draws w1) /\
  db (after generateId w1) = db w1 /\ log (after generateId w1) = log w1 /\
  this (after generateId w1) = this w1.
Proof.
  split; [|repeat split].
  unfold returned, generateId, bind, Date_now, Math_random_toString36, ret.
  cbn [fst snd clock ticks random36 draws]. split.
  - intros [= H]. apply split_at_underscore in H; try apply Z_text_no_underscore.
    destruct H as [H1 H2]. split; [exact (Z_text_inj _ _ H1) | exact H2].
  - intros [-> ->]. reflexivity.
Qed.

End Identifiers.

(** ** Column types *)

Section ColumnTypes.

(** X15: the SQL type of a schema field is one of eight names, and it is a
    numeric one (INTEGER or REAL) only for a tag that mentions "number":
    a tag such as "integer" or "float" on its own gives a TEXT column. *)
Theorem mapHawiahTypeToSQL_numeric_needs_number (type : type_decl) :
  includes (toUpperCase (tag_text type)) "NUMBER" = false ->
  mapHawiahTypeToSQL type <> "INTEGER" /\ mapHawiahTypeToSQL type <> "REAL" /\
  In (mapHawiahTypeToSQL type)
     ["TEXT"; "UUID"; "BOOLEAN"; "TIMESTAMP"; "JSONB"; "BYTEA"].
Proof.
  intros Hn. unfold mapHawiahTypeToSQL. rewrite Hn.
  repeat match goal with
         | |- context [if ?c then _ else _] => destruct c
         end;
    (split; [discriminate|split; [discriminate|]]); cbn [In]; tauto.
Qed.

Lemma mapHawiahTypeToSQL_numeric_needs_number_witness :
  mapHawiahTypeToSQL (TagString "integer") = "TEXT" /\
  mapHawiahTypeToSQL (TagString "float") = "TEXT" /\
  mapHawiahTypeToSQL (TagString "integer") <> "INTEGER".
Proof.
  split; [reflexivity|]. split; [reflexivity|].
  apply (mapHawiahTypeToSQL_numeric_needs_number (TagString "integer")). reflexivity.
Defined.

End ColumnTypes.

(** ** Criteria holding objects *)

Section ByReference.





End ByReference.

(** ** When insertion fails *)

Section InsertOutcome.

Lemma document_insert_id (w : world) (data : object) (t : table) :
  has_column t "_id" = true ->
  new_row t (list_to_map
               (zip ["_id"; "_data"; "_createdAt"; "_updatedAt"]
                  (cell <$> [PVal (VStr (generated_id w)); PJson (VObj (stamped w data));
                             PVal (VDate (insertion_time w));
                             PVal (VDate (insertion_time w))]))) !! "_id"
  = Some (VStr (generated_id w)).
Proof. intros H. apply new_row_assigned; [exact H | reflexivity]. Qed.

(** X17: what decides an insertion in document mode.  On a connected
    driver whose table has the four columns, [set] returns the stamped
    record unless a row already has the generated id; then it throws the
    duplicate-key error of the primary key and the table is as before.  With
    no table at all it throws the missing-relation error.  Either way the
    clock has been read twice and the random source once, and the one
    statement sent is the INSERT. *)
Theorem set_outcome (w : world) (data : object) :
  pool (this w) <> None -> hybrid (this w) = false ->
  let w' := after (set data) w in
  (forall t, db w = Some t ->
     has_column t "_id" = true -> has_column t "_data" = true ->
     has_column t "_createdAt" = true -> has_column t "_updatedAt" = true ->
     let taken := existsb (id_matches (VStr (generated_id w))) (rows t) in
     returned (set data) w
       = (if taken then Throw duplicate_key else Ok (stamped w data)) /\
     (taken = true -> db w' = Some t)) /\
  (db w = None -> returned (set data) w = Throw no_table /\ db w' = None) /\
  ticks w' = S (S (ticks w)) /\ draws w' = S (draws w) /\
  log w' = (log w ++ [insert_of w data])%list.
Proof.
  intros Hc Hh w'. unfold w', returned, after. rewrite (set_run w data Hc). cbv zeta.
  split; [|split].
  - intros t Hdb H1 H2 H3 H4. unfold insert_of. rewrite Hh, Hdb.
    cbn [exec exec_on forallb]. rewrite H1, H2, H3, H4. cbn [andb negb].
    rewrite bool_decide_true
      by (repeat constructor; rewrite ?elem_of_cons, ?elem_of_nil;
          intros H; repeat destruct H as [H|H]; try discriminate H; exact H).
    rewrite (document_insert_id w data t H1).
    cbn [default negb length Nat.eqb].
    destruct (existsb _ (rows t)); cbn [fst snd db]; split;
      try reflexivity; discriminate.
  - intros Hdb. unfold insert_of. rewrite Hh, Hdb. split; reflexivity.
  - destruct (exec _ (db w)) as [[rs d]|e]; repeat split.
Qed.

Lemma set_outcome_witness :
  returned (set {[ "nickname" := VStr "Cy" ]}) two_world
    = Ok (stamped two_world {[ "nickname" := VStr "Cy" ]}) /\
  returned (set ∅) (boot (Driver (Some mkPool) "users" None nosql)) = Throw no_table.
Proof.
  destruct (set_outcome two_world {[ "nickname" := VStr "Cy" ]}) as (H & _);
    [discriminate | reflexivity |].
  destruct (H two_rows) as (H1 & _); [reflexivity | vm_compute; reflexivity ..|].
  destruct (set_outcome (boot (Driver (Some mkPool) "users" None nosql)) ∅)
    as (_ & H2 & _); [discriminate | reflexivity |].
  destruct (H2 eq_refl) as (H3 & _).
  split; [exact H1 | exact H3].
Defined.

End InsertOutcome.

(** ** A schema set after connecting *)

Section LateSchema.

Lemma insert_missing_column (cols : list string) (vals : list param) (t : table)
    (c : string) :
  In c cols -> has_column t c = false ->
  exec (InsertInto cols vals) (Some t) = Throw no_column.
Proof.
  intros Hin Hc. cbn [exec exec_on].
  assert (E : forallb (has_column t) cols = false).
  { destruct (forallb (has_column t) cols) eqn:E; [|reflexivity].
    rewrite forallb_forall in E. rewrite (E c Hin) in Hc. discriminate. }
  rewrite E. reflexivity.
Qed.

(** X18: [setSchema] only changes the driver object: it sends nothing and
    alters no table.  So on a driver already connected to a table without
    an [_extras] column (the document-mode table, for one) a schema switches
    the driver to hybrid mode, and every insertion from then on is refused
    by the database for the missing column, leaving the table as it was. *)
Theorem setSchema_after_connect (w : world) (s : schema_t) (data : object) (t : table) :
  pool (this w) <> None -> db w = Some t -> has_column t "_extras" = false ->
  let w1 := after (setSchema (Some s)) w in
  hybrid (this w1) = true /\ db w1 = db w /\ log w1 = log w /\
  pool (this w1) = pool (this w) /\ tableName (this w1) = tableName (this w) /\
  returned (set data) w1 = Throw no_column /\
  db (after (set data) w1) = Some t.
Proof.
  intros Hc Hdb He w1.
  assert (Hc1 : pool (this w1) <> None) by exact Hc.
  assert (Hh : hybrid (this w1) = true) by reflexivity.
  assert (Hdb1 : db w1 = Some t) by exact Hdb.
  split; [exact Hh|]. split; [reflexivity|]. split; [reflexivity|].
  split; [reflexivity|]. split; [reflexivity|].
  unfold returned, after. rewrite (set_run w1 data Hc1). cbv zeta.
  rewrite Hdb1.
  assert (E : exec (insert_of w1 data) (Some t) = Throw no_column).
  { unfold insert_of. rewrite Hh.
    apply (insert_missing_column _ _ t "_extras"); [|exact He].
    apply in_cons, in_or_app. right. left. reflexivity. }
  rewrite E. split; reflexivity.
Qed.

Lemma setSchema_after_connect_witness :
  let w1 := after (setSchema (Some sample_schema)) two_world in
  hybrid (this w1) = true /\
  returned (set {[ "nickname" := VStr "Cy" ]}) w1 = Throw no_column /\
  db (after (set {[ "nickname" := VStr "Cy" ]}) w1) = Some two_rows.
Proof.
  intros w1.
  destruct (setSchema_after_connect two_world sample_schema
              {[ "nickname" := VStr "Cy" ]} two_rows)
    as (H1 & _ & _ & _ & _ & H2 & H3);
    [discriminate | reflexivity | vm_compute; reflexivity |].
  split; [exact H1|]. split; [exact H2 | exact H3].
Defined.

End LateSchema.
